(** * lzhhf: LZ77/LZSS with folded unary length codes and MTF + FGK literals

    A shallow embedding of the encoder [lzhhf1.c] (functions [main],
    [usage], [search] and [put_codes]) and the properties of its
    bit stream framing, match search, window slide and driver loop.

    C [int] and [unsigned int] values are integers of [Z]: in a run the
    counters stay below [2^20], [buf_cnt] and the match lengths within
    [2^19] ([run_in_range], [search_len]), so no operation of the encoder
    wraps; the one conversion that can, [atoi] to [unsigned int] in [main],
    is written out ([u32]).  The arrays [win_buf], [pattern], [lzhash],
    [lznext] and [lzprev] are finite maps from index to cell content. *)

From Stdlib Require Import ZArith List Lia Bool.
From Stdlib.Strings Require Import Byte Ascii String.
From stdpp Require Import base numbers option list gmap.
Import ListNotations.

Local Open Scope Z_scope.

(** ** Constants of [lzhhf1.c] *)

Definition MIN_LEN : Z := 4.
Definition MTF_SIZE : Z := 256.
Definition NMATCH : Z := 196.
Definition FAR_LIST_BITS : Z := 12.
Definition FAR_LIST : Z := Z.shiftl 1 FAR_LIST_BITS.
Definition HASH_BYTES_N : Z := 4.
Definition MFOLD : Z := 2.

(** Modelled from the spec: [LZ_NULL] is declared in [lzhash.c], which is
    not among the sources; the spec asks for a sentinel outside the position
    range [0, W). *)
Definition LZ_NULL : Z := -1.

(** [EOF] of <stdio.h>. *)
Definition EOF : Z := -1.

(** Conversion to [unsigned int] (32 bits). *)
Definition u32 (x : Z) : Z := x mod 2 ^ 32.

(** ** Arrays *)

(** Reading cell [i] of an array; a cell never written reads as 0. *)
Definition rd (a : gmap Z Z) (i : Z) : Z := default 0 (a !! i).

(** [memset(a + i, v, n)]: the [n] cells from index [i] on receive [v]. *)
Fixpoint memset (a : gmap Z Z) (i v : Z) (n : nat) : gmap Z Z :=
  match n with
  | O => a
  | S n' => memset (<[i := v]> a) (i + 1) v n'
  end.

(** ** Buffer sizes, derived in [main] from [num_POS_BITS] *)

Definition win_BUFSIZE (num_POS_BITS : Z) : Z := Z.shiftl 1 num_POS_BITS.
Definition win_MASK (num_POS_BITS : Z) : Z := win_BUFSIZE num_POS_BITS - 1.
Definition hash_SHIFT (num_POS_BITS : Z) : Z := num_POS_BITS - 8.
Definition pat_BUFSIZE (num_POS_BITS : Z) : Z :=
  Z.shiftr (win_BUFSIZE num_POS_BITS) 1.
Definition pat_MASK (num_POS_BITS : Z) : Z := pat_BUFSIZE num_POS_BITS - 1.

(** The 4-byte [hash] macro; [sh] is the global [hash_SHIFT]. *)
Definition hash (sh : Z) (buf : gmap Z Z) (pos mask1 mask2 : Z) : Z :=
  Z.land
    (Z.lxor
       (Z.lxor
          (Z.lxor (Z.shiftl (rd buf (Z.land pos mask1)) sh)
                  (Z.shiftl (rd buf (Z.land (pos + 1) mask1)) 7))
          (Z.shiftl (rd buf (Z.land (pos + 2) mask1)) 4))
       (rd buf (Z.land (pos + 3) mask1)))
    mask2.

(** ** The hash chains ([lzhash.c]) *)

Record lztab := mkTab {
  lzhash : gmap Z Z;   (* head position of every hash value *)
  lznext : gmap Z Z;
  lzprev : gmap Z Z
}.

(** Modelled from the spec: [alloc_lzhash] of [lzhash.c] (not among the
    sources) creates the head table with every head NULL; the link arrays
    are filled by [main]. *)
Definition alloc_lzhash (size : Z) : lztab :=
  mkTab (memset ∅ 0 LZ_NULL (Z.to_nat size)) ∅ ∅.

(** Modelled from the spec: [insert_lznode] of [lzhash.c] (not among the
    sources) pushes [i] onto chain [h]: [i] becomes the head, the old head
    becomes [next[i]], and [prev[old head] = i]. *)
Definition insert_lznode (t : lztab) (h i : Z) : lztab :=
  let k := rd (lzhash t) h in
  let prev := <[i := LZ_NULL]> (lzprev t) in
  mkTab (<[h := i]> (lzhash t))
        (<[i := k]> (lznext t))
        (if k =? LZ_NULL then prev else <[k := i]> prev).

(** Modelled from the spec: [delete_lznode] of [lzhash.c] (not among the
    sources) unlinks [i] from chain [h]; if [i] was the head, the head of
    [h] is updated. *)
Definition delete_lznode (t : lztab) (h i : Z) : lztab :=
  let nx := rd (lznext t) i in
  let pv := rd (lzprev t) i in
  if rd (lzhash t) h =? i then
    mkTab (<[h := nx]> (lzhash t)) (lznext t)
          (if nx =? LZ_NULL then lzprev t else <[nx := LZ_NULL]> (lzprev t))
  else
    mkTab (lzhash t) (<[pv := nx]> (lznext t))
          (if nx =? LZ_NULL then lzprev t else <[nx := pv]> (lzprev t)).

(** ** The bit writer ([gtbitio2.c]) *)

(** Modelled from the spec: [put_ONE], [put_ZERO] and [put_nbits] of
    [gtbitio2.c] (not among the sources) append bits to the output stream;
    [put_nbits v n] emits the low [n] bits of [v], most significant first.
    The stream is the list of the bits written so far. *)
Definition put_ONE (out : list bool) : list bool := out ++ [true].
Definition put_ZERO (out : list bool) : list bool := out ++ [false].

Fixpoint nbits (v : Z) (n : nat) : list bool :=
  match n with
  | O => []
  | S n' => Z.testbit v (Z.of_nat n') :: nbits v n'
  end.

Definition put_nbits (v n : Z) (out : list bool) : list bool :=
  out ++ nbits v (Z.to_nat n).

(** The number a bit string denotes, most significant bit first. *)
Definition bits_value (bs : list bool) : Z :=
  fold_left (fun acc (b : bool) => 2 * acc + (if b then 1 else 0)) bs 0.

(** ** Move to front ([mtf.c]) *)

(** Modelled from the spec: [alloc_mtf] and [mtf] of [mtf.c] (not among the
    sources).  The list starts as [list[i] = i]; [mtf b] returns the index
    [r] with [list[r] = b] and moves [b] to the front, shifting
    [list[0..r-1]] one step right. *)
Definition alloc_mtf (size : Z) : list Z := seqZ 0 size.

Fixpoint mtf_rank (l : list Z) (b : Z) : Z :=
  match l with
  | [] => 0
  | x :: l' => if x =? b then 0 else 1 + mtf_rank l' b
  end.

Fixpoint mtf_drop (l : list Z) (b : Z) : list Z :=
  match l with
  | [] => []
  | x :: l' => if x =? b then l' else x :: mtf_drop l' b
  end.

Definition mtf (l : list Z) (b : Z) : Z * list Z :=
  (mtf_rank l b, b :: mtf_drop l b).

(** ** Input ([gtbitio2.c]) *)

Definition byte_val (b : Byte.byte) : Z := Z.of_N (Byte.to_N b).

(** Modelled from the spec: [gfgetc] of [gtbitio2.c] (not among the sources)
    is the blocking byte reader over the plaintext: the next byte of the
    input as a value in 0..255, or [EOF] once the input is exhausted. *)
Definition gfgetc (g : list Byte.byte) : Z * list Byte.byte :=
  match g with
  | [] => (EOF, [])
  | c :: g' => (byte_val c, g')
  end.

(** [fread(buf, 1, n, gIN)]: up to [n] bytes go to [buf[i], buf[i+1], ...];
    the result is the buffer, the index reached and the unread input. *)
Fixpoint fread (buf : gmap Z Z) (i : Z) (n : nat) (g : list Byte.byte)
  : gmap Z Z * Z * list Byte.byte :=
  match n, g with
  | S n', c :: g' => fread (<[i := byte_val c]> buf) (i + 1) n' g'
  | _, _ => (buf, i, g)
  end.

(** Byte [q] of the input file, as a value (0 past its end). *)
Definition input_byte (input : list Byte.byte) (q : Z) : Z :=
  match input !! Z.to_nat q with
  | Some c => byte_val c
  | None => 0
  end.

(** ** The encoder *)

Record dpos_t := mkDpos { pos : Z; len : Z }.

(** One chain node looked at by [search]: the node, and the match length
    recorded for it when the node is accepted ([None] when the node is
    skipped).  The list of visits is kept beside the result of [search] to
    state properties of the walk; the code does not store it. *)
Record visit := mkVisit { v_node : Z; v_len : option Z }.

Definition accepted (v : visit) : bool :=
  match v_len v with Some _ => true | None => false end.

Section Encoder.

(** The adaptive FGK coder of [adhfgk2.c] is not among the sources: its tree
    and the function [fgk_encode_symbol] are parameters here.
    [fgk_encode_symbol t r] gives the bits written for the rank [r] and the
    updated tree. *)
Context {fgk_tree : Type}.
Variable fgk_init_first_node : fgk_tree.
Variable fgk_encode_symbol : fgk_tree -> Z -> list bool * fgk_tree.

(** The global [num_POS_BITS], fixed by [main] before the encoder runs. *)
Variable num_POS_BITS : Z.

Local Abbreviation WSIZE := (win_BUFSIZE num_POS_BITS).
Local Abbreviation WMASK := (win_MASK num_POS_BITS).
Local Abbreviation PSIZE := (pat_BUFSIZE num_POS_BITS).
Local Abbreviation PMASK := (pat_MASK num_POS_BITS).
Local Abbreviation HSHIFT := (hash_SHIFT num_POS_BITS).

(** The globals of the encoder, the MTF list, the FGK tree, the unread
    input and the bits written so far. *)
Record state := mkState {
  win_buf : gmap Z Z;
  pattern : gmap Z Z;
  tab : lztab;
  dpos : dpos_t;
  win_cnt : Z;
  pat_cnt : Z;
  buf_cnt : Z;
  len_CODE : Z;
  mtf_list : list Z;
  fgk : fgk_tree;
  gIN : list Byte.byte;
  pOUT : list bool
}.

Definition with_dpos (st : state) (d : dpos_t) : state :=
  mkState (win_buf st) (pattern st) (tab st) d (win_cnt st) (pat_cnt st)
          (buf_cnt st) (len_CODE st) (mtf_list st) (fgk st) (gIN st) (pOUT st).

Definition with_out (st : state) (o : list bool) : state :=
  mkState (win_buf st) (pattern st) (tab st) (dpos st) (win_cnt st)
          (pat_cnt st) (buf_cnt st) (len_CODE st) (mtf_list st) (fgk st)
          (gIN st) o.

Definition with_len_CODE (st : state) (c : Z) : state :=
  mkState (win_buf st) (pattern st) (tab st) (dpos st) (win_cnt st)
          (pat_cnt st) (buf_cnt st) c (mtf_list st) (fgk st) (gIN st)
          (pOUT st).

Definition with_coder (st : state) (l : list Z) (t : fgk_tree) : state :=
  mkState (win_buf st) (pattern st) (tab st) (dpos st) (win_cnt st)
          (pat_cnt st) (buf_cnt st) (len_CODE st) l t (gIN st) (pOUT st).

Definition with_window (st : state) (w : gmap Z Z) (t : lztab) : state :=
  mkState w (pattern st) t (dpos st) (win_cnt st) (pat_cnt st) (buf_cnt st)
          (len_CODE st) (mtf_list st) (fgk st) (gIN st) (pOUT st).

Definition with_input (st : state) (p : gmap Z Z) (g : list Byte.byte) : state :=
  mkState (win_buf st) p (tab st) (dpos st) (win_cnt st) (pat_cnt st)
          (buf_cnt st) (len_CODE st) (mtf_list st) (fgk st) g (pOUT st).

Definition with_counters (st : state) (wc pc bc : Z) : state :=
  mkState (win_buf st) (pattern st) (tab st) (dpos st) wc pc bc
          (len_CODE st) (mtf_list st) (fgk st) (gIN st) (pOUT st).

(** *** [search] *)

(** The [do ... while ((--k) >= 0)] loop: the context of [k] bytes and the
    suffix byte at offset [k] are compared from right to left; [false] is
    the jump to [skip_search]. *)
Fixpoint context_match (w p : gmap Z Z) (i j : Z) (k : nat) : bool :=
  if negb (rd p j =? rd w (Z.land (i + Z.of_nat k) WMASK)) then false
  else
    match k with
    | O => true
    | S k' => context_match w p i (if j =? 0 then PSIZE - 1 else j - 1) k'
    end.

(** The [while (p[j++ & pat_MASK] == w[(i+k) & win_MASK] && (++k) < buf_cnt)]
    loop, entered with [k < buf_cnt]; it runs at most [buf_cnt - k] times,
    which is the [fuel] given by [walk]. *)
Fixpoint suffix_match (fuel : nat) (w p : gmap Z Z) (cnt i j k : Z) : Z :=
  match fuel with
  | O => k
  | S f =>
      if rd p (Z.land j PMASK) =? rd w (Z.land (i + k) WMASK) then
        if k + 1 <? cnt then suffix_match f w p cnt i (j + 1) (k + 1)
        else k + 1
      else k
  end.

(** One chain node [i] against the best match [d] so far: [None] is the
    jump to [skip_search]; [Some k] is the length recorded for the node,
    after the context was verified and the suffix extended. *)
Definition candidate (st : state) (i : Z) (d : dpos_t) : option Z :=
  let j := Z.land (pat_cnt st + len d) PMASK in
  if context_match (win_buf st) (pattern st) i j (Z.to_nat (len d)) then
    let j := Z.land (pat_cnt st + len d + 1) PMASK in
    let k := len d + 1 in
    Some (if k <? buf_cnt st
          then suffix_match (Z.to_nat (buf_cnt st - k)) (win_buf st)
                            (pattern st) (buf_cnt st) i j k
          else k)
  else None.

(** The [while (i != LZ_NULL)] loop of [search]; [m] counts the nodes left
    behind, [n] the accepted ones, [d] is the best match so far.  Every pass
    that continues increments [m], and the loop is left when [m] reaches
    [FAR_LIST], so [FAR_LIST - m] passes are enough fuel. *)
Fixpoint walk (fuel : nat) (st : state) (i m n : Z) (d : dpos_t)
  : dpos_t * list visit :=
  match fuel with
  | O => (d, [])
  | S f =>
      if i =? LZ_NULL then (d, [])
      else
        match candidate st i d with
        | Some k =>
            let d' := mkDpos i k in
            let v := mkVisit i (Some k) in
            if (k =? buf_cnt st) || (n + 1 =? NMATCH) then (d', [v])   (* break *)
            else if m + 1 =? FAR_LIST then (d', [v])                   (* break *)
            else
              let r := walk f st (rd (lznext (tab st)) i) (m + 1) (n + 1) d' in
              (fst r, v :: snd r)
        | None =>
            let v := mkVisit i None in
            if m + 1 =? FAR_LIST then (d, [v])                         (* break *)
            else
              let r := walk f st (rd (lznext (tab st)) i) (m + 1) n d in
              (fst r, v :: snd r)
        end
  end.

(** [search] together with the list of the chain nodes it visited. *)
Definition search_log (st : state) : dpos_t * list visit :=
  let i :=
    rd (lzhash (tab st)) (hash HSHIFT (pattern st) (pat_cnt st) PMASK WMASK) in
  if buf_cnt st >? 1
  then walk (Z.to_nat FAR_LIST) st i 0 0 (mkDpos 0 0)
  else (mkDpos 0 0, []).

Definition search (st : state) : dpos_t := fst (search_log st).

(** *** [put_codes] *)

(** [while (i--) put_ONE();] *)
Fixpoint put_ones (i : nat) (out : list bool) : list bool :=
  match i with
  | O => out
  | S i' => put_ones i' (put_ONE out)
  end.

(** The length code, written only for [dpos->len > MIN_LEN]. *)
Definition put_len (st : state) : state :=
  if len (dpos st) >? MIN_LEN then
    let lc := len (dpos st) - (MIN_LEN + 1) in
    let i := Z.shiftr lc MFOLD in
    let out := put_ones (Z.to_nat i) (pOUT st) in
    with_out (with_len_CODE st lc)
      (put_nbits (Z.shiftl (Z.rem lc (Z.shiftl 1 MFOLD)) 1) (MFOLD + 1) out)
  else st.

(** The bits of the length code, as the loop and [put_nbits] write them. *)
Definition len_code_bits (l : Z) : list bool :=
  if l >? MIN_LEN then
    let lc := l - (MIN_LEN + 1) in
    repeat true (Z.to_nat (Z.shiftr lc MFOLD))
      ++ nbits (Z.shiftl (Z.rem lc (Z.shiftl 1 MFOLD)) 1) (Z.to_nat (MFOLD + 1))
  else [].

(** The position for [dpos->len >= MIN_LEN]; otherwise the literal:
    [dpos->len = 1] and [fgk_encode_symbol(mtf(pattern[pat_cnt]))]. *)
Definition put_pos_or_byte (st : state) : state :=
  if len (dpos st) >=? MIN_LEN then
    with_out st (put_nbits (pos (dpos st)) num_POS_BITS (pOUT st))
  else
    let st1 := with_dpos st (mkDpos (pos (dpos st)) 1) in
    let k := rd (pattern st1) (pat_cnt st1) in
    let r := mtf (mtf_list st1) k in
    let c := fgk_encode_symbol (fgk st1) (fst r) in
    with_out (with_coder st1 (snd r) (snd c)) (pOUT st1 ++ fst c).

(** [for (i = 0; i < dpos->len + (HASH_BYTES_N-1); i++) delete_lznode(...)],
    with [n] passes left. *)
Fixpoint delete_loop (n : nat) (i : Z) (w : gmap Z Z) (k : Z) (t : lztab)
  : lztab :=
  match n with
  | O => t
  | S n' =>
      delete_loop n' (i + 1) w k
        (delete_lznode t (hash HSHIFT w (k + i) WMASK WMASK)
                       (Z.land (k + i) WMASK))
  end.

(** [i = dpos->len; while (i--) win_buf[(win_cnt+i) & win_MASK] =
    pattern[(pat_cnt+i) & pat_MASK];] *)
Fixpoint copy_loop (i : nat) (p : gmap Z Z) (wc pc : Z) (w : gmap Z Z)
  : gmap Z Z :=
  match i with
  | O => w
  | S i' =>
      copy_loop i' p wc pc
        (<[Z.land (wc + Z.of_nat i') WMASK :=
             rd p (Z.land (pc + Z.of_nat i') PMASK)]> w)
  end.

(** [for (i = 0; i < dpos->len + (HASH_BYTES_N-1); i++) insert_lznode(...)],
    with [n] passes left. *)
Fixpoint insert_loop (n : nat) (i : Z) (w : gmap Z Z) (k : Z) (t : lztab)
  : lztab :=
  match n with
  | O => t
  | S n' =>
      insert_loop n' (i + 1) w k
        (insert_lznode t (hash HSHIFT w (k + i) WMASK WMASK)
                       (Z.land (k + i) WMASK))
  end.

(** The slide: [k] is the leftmost index whose hash changes. *)
Definition slide (st : state) : state :=
  let k := win_cnt st - (HASH_BYTES_N - 1) in
  let k := if k <? 0 then WSIZE + k else k in
  let n := Z.to_nat (len (dpos st) + (HASH_BYTES_N - 1)) in
  let t1 := delete_loop n 0 (win_buf st) k (tab st) in
  let w1 := copy_loop (Z.to_nat (len (dpos st))) (pattern st) (win_cnt st)
                      (pat_cnt st) (win_buf st) in
  let t2 := insert_loop n 0 w1 k t1 in
  with_window st w1 t2.

(** [for (i = 0; i < dpos->len; i++) { if ((k = gfgetc()) != EOF)
    pattern[(pat_cnt+i) & pat_MASK] = k; else break; }] with [n] passes
    left; the result holds the final [i]. *)
Fixpoint get_bytes (n : nat) (i pc : Z) (p : gmap Z Z) (g : list Byte.byte)
  : Z * gmap Z Z * list Byte.byte :=
  match n with
  | O => (i, p, g)
  | S n' =>
      let c := gfgetc g in
      if negb (fst c =? EOF)
      then get_bytes n' (i + 1) pc (<[Z.land (pc + i) PMASK := fst c]> p) (snd c)
      else (i, p, g)
  end.

(** The refill and the update of the counters. *)
Definition refill (st : state) : state :=
  let L := len (dpos st) in
  let r := get_bytes (Z.to_nat L) 0 (pat_cnt st) (pattern st) (gIN st) in
  let i := fst (fst r) in
  with_counters (with_input st (snd (fst r)) (snd r))
    (Z.land (win_cnt st + L) WMASK)
    (Z.land (pat_cnt st + L) PMASK)
    (buf_cnt st - (L - i)).

(** [put_codes(&dpos)], on the global [dpos]. *)
Definition put_codes (st : state) : state :=
  refill (slide (put_pos_or_byte (put_len st))).

(** *** The loop of [main] *)

(** The prefix bits written by [main] before [put_codes]. *)
Definition put_prefix (st : state) : state :=
  if len (dpos st) >? MIN_LEN then with_out st (put_ONE (pOUT st))
  else if len (dpos st) =? MIN_LEN
       then with_out st (put_ONE (put_ZERO (pOUT st)))
       else with_out st (put_ZERO (put_ZERO (pOUT st))).

(** One pass of [while (buf_cnt > 0)]. *)
Definition encode_step (st : state) : state :=
  put_codes (put_prefix (with_dpos st (search st))).

(** [while (buf_cnt > 0) { ... }]; [None] when [fuel] passes do not end
    the loop. *)
Fixpoint compress_loop (fuel : nat) (st : state) : option state :=
  if buf_cnt st >? 0 then
    match fuel with
    | O => None
    | S f => compress_loop f (encode_step st)
    end
  else Some st.

(** The states at the top of each pass, in order. *)
Fixpoint compress_trace (fuel : nat) (st : state) : list state :=
  if buf_cnt st >? 0 then
    match fuel with
    | O => []
    | S f => st :: compress_trace f (encode_step st)
    end
  else [].

(** [for (i = 0; i < win_BUFSIZE; i++) { lznext[i] = LZ_NULL;
    lzprev[i] = LZ_NULL; insert_lznode(hash(win_buf,i,...), i); }] with [n]
    passes left. *)
Fixpoint init_list (n : nat) (i : Z) (w : gmap Z Z) (t : lztab) : lztab :=
  match n with
  | O => t
  | S n' =>
      let t1 := mkTab (lzhash t) (<[i := LZ_NULL]> (lznext t))
                      (<[i := LZ_NULL]> (lzprev t)) in
      init_list n' (i + 1) w (insert_lznode t1 (hash HSHIFT w i WMASK WMASK) i)
  end.

(** The state of [main] when the loop is entered: the window is zero, every
    position is in the search list, the look-ahead buffer ([junk] when
    allocated) has received the first bytes of [input]. *)
Definition init_state (junk : gmap Z Z) (input : list Byte.byte) : state :=
  let w := memset ∅ 0 0 (Z.to_nat WSIZE) in
  let t := init_list (Z.to_nat WSIZE) 0 w (alloc_lzhash WSIZE) in
  let r := fread junk 0 (Z.to_nat PSIZE) input in
  mkState w (fst (fst r)) t (mkDpos 0 0) 0 0 (snd (fst r)) 0
          (alloc_mtf MTF_SIZE) fgk_init_first_node (snd r) [].

(** *** The step as the specification words it *)

(** The folded unary code of [c] with fold factor [M = 2]: [c >> M]
    one-bits, then [M + 1 = 3] more bits whose value is [(c mod 4) << 1]. *)
Definition folded_unary_spec (c : Z) : list bool :=
  repeat true (Z.to_nat (c / 2 ^ MFOLD)) ++ nbits ((c mod 4) * 2) 3.

(** The [L + HN - 1] positions [k0 .. k0+L+HN-2] modulo the window size,
    with [k0 = (win_cnt - (HN-1)) mod W]. *)
Definition slide_positions_spec (wc L : Z) : list Z :=
  let k0 := (wc - (HASH_BYTES_N - 1)) mod WSIZE in
  map (fun i => (k0 + i) mod WSIZE) (seqZ 0 (L + HASH_BYTES_N - 1)).

Definition delete_all_spec (w : gmap Z Z) (ps : list Z) (t : lztab) : lztab :=
  fold_left (fun t p => delete_lznode t (hash HSHIFT w p WMASK WMASK) p) ps t.

Definition insert_all_spec (w : gmap Z Z) (ps : list Z) (t : lztab) : lztab :=
  fold_left (fun t p => insert_lznode t (hash HSHIFT w p WMASK WMASK) p) ps t.

(** [window[(win_cnt+i) mod W] = lookahead[(pat_cnt+i) mod P]] for [i] in
    [0 .. L-1]. *)
Definition copy_spec (p : gmap Z Z) (wc pc L : Z) (w : gmap Z Z) : gmap Z Z :=
  fold_left (fun w i => <[(wc + i) mod WSIZE := rd p ((pc + i) mod PSIZE)]> w)
            (seqZ 0 L) w.

(** Delete the whole span, then write, then insert the whole span again. *)
Definition slide_spec (st : state) (L : Z) : gmap Z Z * lztab :=
  let ps := slide_positions_spec (win_cnt st) L in
  let t1 := delete_all_spec (win_buf st) ps (tab st) in
  let w1 := copy_spec (pattern st) (win_cnt st) (pat_cnt st) L (win_buf st) in
  (w1, insert_all_spec w1 ps t1).

(** The literal bytes of a run: the byte at [pattern[pat_cnt]] of every pass
    whose match is shorter than [MIN_LEN]. *)
Definition literal_bytes (tr : list state) : list Z :=
  flat_map (fun s => if len (search s) >=? MIN_LEN then []
                     else [rd (pattern s) (pat_cnt s)]) tr.

(** The MTF list and the FGK tree after coding the bytes [bs] in order. *)
Definition coder_after (bs : list Z) (c : list Z * fgk_tree)
  : list Z * fgk_tree :=
  fold_left (fun c b => let r := mtf (fst c) b in
                        (snd r, snd (fgk_encode_symbol (snd c) (fst r))))
            bs c.

(** The counters are inside their buffers. *)
Definition counters_in_range (st : state) : Prop :=
  0 <= win_cnt st < WSIZE /\ 0 <= pat_cnt st < PSIZE.

(** Every cell of the head table and of the link arrays holds a window
    position or [LZ_NULL]. *)
Definition links_in_range (t : lztab) : Prop :=
  forall x, LZ_NULL <= rd (lzhash t) x < WSIZE
            /\ LZ_NULL <= rd (lznext t) x < WSIZE
            /\ LZ_NULL <= rd (lzprev t) x < WSIZE.

(** What holds of the globals at the top of every pass of the loop. *)
Definition state_in_range (st : state) : Prop :=
  counters_in_range st
  /\ 0 <= buf_cnt st <= PSIZE
  /\ links_in_range (tab st).

(** The slide between the state [st] that [put_codes] receives and the
    state [st'] it leaves, for the length [L] of the step: the positions
    [ps] are deleted under the hashes of the old window, the [L] bytes are
    copied, and [ps] are inserted under the hashes of the new window. *)
Definition slide_as_specified (st st' : state) : Prop :=
  let L := len (dpos st') in
  let ps := slide_positions_spec (win_cnt st) L in
  let w1 := copy_spec (pattern st) (win_cnt st) (pat_cnt st) L (win_buf st) in
  L = (if len (dpos st) >=? MIN_LEN then len (dpos st) else 1)
  /\ length ps = Z.to_nat (L + HASH_BYTES_N - 1)
  /\ win_buf st' = w1
  /\ tab st' = insert_all_spec w1 ps (delete_all_spec (win_buf st) ps (tab st)).

(** *** The buffers as the code indexes them *)

(** [pattern[(pat_cnt + t) & pat_MASK]]: the byte [t] places ahead. *)
Definition lookahead_byte (st : state) (t : Z) : Z :=
  rd (pattern st) (Z.land (pat_cnt st + t) PMASK).

(** [win_buf[(i + t) & win_MASK]]. *)
Definition window_byte (st : state) (i t : Z) : Z :=
  rd (win_buf st) (Z.land (i + t) WMASK).

(** The first [n] look-ahead bytes stand in the window from position [i]
    on. *)
Definition matches_at (st : state) (i n : Z) : Prop :=
  forall t, 0 <= t < n -> lookahead_byte st t = window_byte st i t.

(** The number of input bytes behind the look-ahead: those of [input] that
    are neither unread nor waiting in the look-ahead buffer. *)
Definition consumed (input : list Byte.byte) (st : state) : Z :=
  Z.of_nat (length input) - buf_cnt st - Z.of_nat (length (gIN st)).

(** The buffers against the input, [n] bytes of which are behind the
    look-ahead: the unread input is what follows the look-ahead, the
    look-ahead is full unless the input is exhausted, the counters are [n]
    modulo the buffer sizes, the look-ahead cells hold the next [buf_cnt]
    input bytes and the window cells the last [W] bytes before them. *)
Definition buffers_follow (input : list Byte.byte) (n : Z) (st : state)
  : Prop :=
  0 <= n
  /\ 0 <= buf_cnt st <= PSIZE
  /\ gIN st = drop (Z.to_nat (n + buf_cnt st)) input
  /\ n + buf_cnt st <= Z.of_nat (length input)
  /\ (buf_cnt st = PSIZE \/ gIN st = [])
  /\ win_cnt st = n mod WSIZE
  /\ pat_cnt st = n mod PSIZE
  /\ (forall q, n <= q < n + buf_cnt st ->
        rd (pattern st) (q mod PSIZE) = input_byte input q)
  /\ (forall q, 0 <= q < n -> n - WSIZE <= q ->
        rd (win_buf st) (q mod WSIZE) = input_byte input q)
  /\ (forall x, (forall q, 0 <= q < n -> n - WSIZE <= q -> x <> q mod WSIZE) ->
        rd (win_buf st) x = 0).

End Encoder.

(** ** [main] *)

(** The default of [num_POS_BITS]. *)
Definition NUM_POS_BITS : Z := 17.

(** [atoi] of <stdlib.h>: white space, an optional sign, decimal digits. *)
Definition digit_of (c : ascii) : option Z :=
  let n := Z.of_N (N_of_ascii c) in
  if (48 <=? n) && (n <=? 57) then Some (n - 48) else None.

Definition isspace (c : ascii) : bool :=
  let n := Z.of_N (N_of_ascii c) in
  (n =? 32) || ((9 <=? n) && (n <=? 13)).

Fixpoint atoi_digits (s : string) (acc : Z) : Z :=
  match s with
  | EmptyString => acc
  | String c s' =>
      match digit_of c with
      | Some d => atoi_digits s' (10 * acc + d)
      | None => acc
      end
  end.

Fixpoint atoi (s : string) : Z :=
  match s with
  | EmptyString => 0
  | String c s' =>
      if isspace c then atoi s'
      else if Ascii.eqb c "-"%char then - atoi_digits s' 0
      else if Ascii.eqb c "+"%char then atoi_digits s' 0
      else atoi_digits s 0
  end.

(** What a run of the program meets outside itself: the command line, the
    files behind the two [fopen] calls, whether each allocation succeeds,
    and the content of the look-ahead buffer when allocated. *)
Record environment := mkEnv {
  argv : list string;
  fopen_rb : string -> option (list Byte.byte);
  fopen_wb : string -> bool;
  malloc_win_buf : bool;
  malloc_pattern : bool;
  alloc_lzhash_ok : bool;
  pattern_junk : gmap Z Z
}.

(** How the run ended: the message on [stderr] that tells the paths apart,
    and the bit stream written on success. *)
Inductive report :=
| UsageShown
| ErrorOpeningInput
| ErrorOpeningOutput
| ErrorAllocWindow
| ErrorAllocPattern
| ErrorAllocHash
| Complete (bits : option (list bool)).

Record outcome := mkOutcome { exit_status : Z; said : report }.

(** [usage()]: the message, then [exit (0)]. *)
Definition usage : outcome := mkOutcome 0 UsageShown.

(** The first [if] of [main]: [None] when [usage()] ends the process,
    otherwise the value of [num_POS_BITS]. *)
Definition parse_bits (args : list string) : option Z :=
  if Z.of_nat (length args) =? 4 then
    match nth 1%nat args EmptyString with
    | String c rest =>
        if Ascii.eqb c "-"%char then
          let n := u32 (atoi rest) in
          if n =? 0 then None
          else if n <? 12 then Some 12
          else if n >? 20 then Some 20
          else Some n
        else None
    | EmptyString => None
    end
  else Some NUM_POS_BITS.

(** The second [if]: the indices of the two file names, [None] when
    [usage()] ends the process. *)
Definition parse_files (args : list string) : option (nat * nat) :=
  let argc := Z.of_nat (length args) in
  if argc =? 3 then Some (1%nat, 2%nat)
  else if argc =? 4 then Some (2%nat, 3%nat)
  else None.

Section Main.

Context {fgk_tree : Type}.
Variable fgk_init_first_node : fgk_tree.
Variable fgk_encode_symbol : fgk_tree -> Z -> list bool * fgk_tree.

(** The compression proper, from the filled look-ahead buffer to the end of
    the [while] loop; one pass per input byte is enough fuel. *)
Definition compress (bits : Z) (junk : gmap Z Z) (input : list Byte.byte)
  : option (list bool) :=
  pOUT <$> compress_loop fgk_encode_symbol bits (length input)
             (init_state fgk_init_first_node bits junk input).

Definition main (e : environment) : outcome :=
  match parse_bits (argv e) with
  | None => usage
  | Some bits =>
      match parse_files (argv e) with
      | None => usage
      | Some (in_argn, out_argn) =>
          match fopen_rb e (nth in_argn (argv e) EmptyString) with
          | None => mkOutcome 0 ErrorOpeningInput           (* return 0 *)
          | Some input =>
              if negb (fopen_wb e (nth out_argn (argv e) EmptyString))
              then mkOutcome 0 ErrorOpeningOutput           (* return 0 *)
              else if negb (malloc_win_buf e)
              then mkOutcome 0 ErrorAllocWindow             (* goto halt_prog *)
              else if negb (malloc_pattern e)
              then mkOutcome 0 ErrorAllocPattern            (* goto halt_prog *)
              else if negb (alloc_lzhash_ok e)
              then mkOutcome 0 ErrorAllocHash               (* goto halt_prog *)
              else mkOutcome 0 (Complete (compress bits (pattern_junk e) input))
          end
      end
  end.

End Main.

(** The paths of [main] that are failures: misuse of the command line, a
    file that does not open, an allocation that fails. *)
Definition is_failure (r : report) : bool :=
  match r with
  | Complete _ => false
  | _ => true
  end.

(** Sample runs: a command line, the content of the input file when it
    opens, and whether the output file, the window, the look-ahead buffer
    and the hash table are obtained. *)
Definition sample_env (args : list string) (input : option (list Byte.byte))
    (out_ok win_ok pat_ok hash_ok : bool) : environment :=
  mkEnv args (fun _ => input) (fun _ => out_ok) win_ok pat_ok hash_ok ∅.

Definition prog : string := "lzhhf".
Definition infile : string := "in".
Definition outfile : string := "out".

(** The input of five zero bytes. *)
Definition five_zero_bytes : list Byte.byte := [x00; x00; x00; x00; x00].

(** A stand-in for the FGK coder, to run the encoder on sample inputs: no
    tree, every rank written in 8 bits. *)
Definition fixed8 (t : unit) (r : Z) : list bool * unit := (nbits r 8, tt).

(** Sample states, with 12 position bits and the stand-in coder: the state
    at the top of the first pass on [input], and the state [put_codes]
    receives in that pass. *)
Definition sample_state (input : list Byte.byte) : @state unit :=
  init_state tt 12 ∅ input.

Definition sample_put_codes_state (input : list Byte.byte) : @state unit :=
  put_prefix (with_dpos (sample_state input) (search 12 (sample_state input))).

Definition eleven_zero_bytes : list Byte.byte := repeat x00 11.

(** Four zero bytes and a byte that the window of zeros does not hold. *)
Definition zeros_then_A : list Byte.byte := [x00; x00; x00; x00; x41].

(** A sample input with literals, a match of [MIN_LEN] bytes and a longer
    match: ABCD three times, then five zero bytes. *)
Definition sample_text : list Byte.byte :=
  [x41; x42; x43; x44; x41; x42; x43; x44; x41; x42; x43; x44;
   x00; x00; x00; x00; x00].

(** * Properties *)

(** ** Bit fields *)

Lemma nbits_length v n : length (nbits v n) = n.
Proof. induction n as [|n IH]; simpl; [reflexivity | now rewrite IH]. Qed.

Lemma bits_value_app bs b :
  bits_value (bs ++ [b]) = 2 * bits_value bs + (if b then 1 else 0).
Proof. unfold bits_value. now rewrite fold_left_app. Qed.

Lemma bits_value_cons_aux (bs : list bool) (acc : Z) :
  fold_left (fun a (b : bool) => 2 * a + (if b then 1 else 0)) bs acc
  = acc * 2 ^ Z.of_nat (length bs) + bits_value bs.
Proof.
  unfold bits_value. revert acc.
  induction bs as [|b bs IH]; intros acc.
  - simpl. lia.
  - cbn [fold_left length]. rewrite IH, (IH (2 * 0 + _)).
    rewrite Nat2Z.inj_succ, Z.pow_succ_r by lia. lia.
Qed.

Lemma bits_value_cons (b : bool) bs :
  bits_value (b :: bs)
  = (if b then 1 else 0) * 2 ^ Z.of_nat (length bs) + bits_value bs.
Proof.
  unfold bits_value at 1. cbn [fold_left].
  rewrite bits_value_cons_aux. lia.
Qed.

(** [n] bits written by [put_nbits] denote the value modulo [2^n]. *)
Lemma bits_value_nbits v n : bits_value (nbits v n) = v mod 2 ^ Z.of_nat n.
Proof.
  induction n as [|n IH].
  - simpl. now rewrite Z.mod_1_r.
  - cbn [nbits]. rewrite bits_value_cons, nbits_length, IH.
    rewrite Nat2Z.inj_succ, Z.pow_succ_r by lia.
    change (if Z.testbit v (Z.of_nat n) then 1 else 0)
      with (Z.b2z (Z.testbit v (Z.of_nat n))).
    rewrite (Z.testbit_spec' v (Z.of_nat n)) by lia.
    set (p := 2 ^ Z.of_nat n).
    assert (Hp : 0 < p) by (apply Z.pow_pos_nonneg; lia).
    rewrite (Z.mul_comm 2 p), Z.rem_mul_r by lia. lia.
Qed.

Lemma put_ones_spec i out : put_ones i out = out ++ repeat true i.
Proof.
  revert out; induction i as [|i IH]; intros out; simpl.
  - now rewrite app_nil_r.
  - rewrite IH. unfold put_ONE. now rewrite <- app_assoc.
Qed.

Section EncoderFacts.

Context {fgk_tree : Type}.
Variable fgk_init_first_node : fgk_tree.
Variable fgk_encode_symbol : fgk_tree -> Z -> list bool * fgk_tree.
Variable num_POS_BITS : Z.

Local Abbreviation WSIZE := (win_BUFSIZE num_POS_BITS).
Local Abbreviation WMASK := (win_MASK num_POS_BITS).
Local Abbreviation PSIZE := (pat_BUFSIZE num_POS_BITS).
Local Abbreviation PMASK := (pat_MASK num_POS_BITS).
Local Abbreviation HSHIFT := (hash_SHIFT num_POS_BITS).
Local Abbreviation state := (@state fgk_tree).
Local Abbreviation put_codes := (put_codes fgk_encode_symbol num_POS_BITS).
Local Abbreviation put_pos_or_byte :=
  (put_pos_or_byte fgk_encode_symbol num_POS_BITS).
Local Abbreviation encode_step := (encode_step fgk_encode_symbol num_POS_BITS).
Local Abbreviation compress_loop :=
  (compress_loop fgk_encode_symbol num_POS_BITS).
Local Abbreviation compress_trace :=
  (compress_trace fgk_encode_symbol num_POS_BITS).
Local Abbreviation init_state :=
  (init_state fgk_init_first_node num_POS_BITS).
Local Abbreviation search := (search num_POS_BITS).
Local Abbreviation search_log := (search_log num_POS_BITS).

(** ** What each part of [put_codes] leaves alone *)

Ltac by_cases_of f :=
  intros; unfold f; repeat case_match; reflexivity.

Lemma put_prefix_dpos (st : state) : dpos (put_prefix st) = dpos st.
Proof. by_cases_of @put_prefix. Qed.

Lemma put_prefix_out (st : state) :
  pOUT (put_prefix st)
  = pOUT st ++ (if len (dpos st) >? MIN_LEN then [true]
                else if len (dpos st) =? MIN_LEN then [false; true]
                     else [false; false]).
Proof.
  unfold put_prefix, put_ONE, put_ZERO.
  repeat case_match; cbn [pOUT with_out]; now rewrite <- ?app_assoc.
Qed.

Lemma put_len_dpos (st : state) : dpos (put_len st) = dpos st.
Proof. by_cases_of @put_len. Qed.

Lemma put_len_coder (st : state) :
  mtf_list (put_len st) = mtf_list st /\ fgk (put_len st) = fgk st.
Proof. unfold put_len; case_match; split; reflexivity. Qed.

Lemma put_len_input (st : state) :
  pattern (put_len st) = pattern st /\ pat_cnt (put_len st) = pat_cnt st.
Proof. unfold put_len; case_match; split; reflexivity. Qed.

Lemma put_len_out (st : state) :
  pOUT (put_len st) = pOUT st ++ len_code_bits (len (dpos st)).
Proof.
  unfold put_len, len_code_bits. case_match.
  - cbn [pOUT with_out with_len_CODE]. unfold put_nbits.
    now rewrite put_ones_spec, <- app_assoc.
  - now rewrite app_nil_r.
Qed.

Lemma len_code_bits_spec l :
  MIN_LEN < l -> len_code_bits l = folded_unary_spec (l - 5).
Proof.
  intros Hl. unfold len_code_bits, folded_unary_spec, MIN_LEN, MFOLD in *.
  replace (l >? 4) with true by lia.
  replace (l - (4 + 1)) with (l - 5) by lia.
  rewrite Z.shiftr_div_pow2 by lia.
  rewrite Z.rem_mod_nonneg by (try (change (Z.shiftl 1 2) with 4); lia).
  rewrite Z.shiftl_mul_pow2 by lia.
  reflexivity.
Qed.

(** Under most-significant-first output the three bits are the two low bits
    of the code followed by a zero bit. *)
Lemma folded_unary_low_bits c :
  nbits ((c mod 4) * 2) 3 = [Z.testbit c 1; Z.testbit c 0; false].
Proof.
  cbn [nbits Z.of_nat Pos.of_succ_nat Pos.succ].
  change 4 with (2 ^ 2). change ((c mod 2 ^ 2) * 2) with ((c mod 2 ^ 2) * 2 ^ 1).
  rewrite !Z.mul_pow2_bits by lia.
  change (2 - 1) with 1. change (1 - 1) with 0. change (0 - 1) with (-1).
  rewrite (Z.testbit_neg_r _ (-1)) by lia.
  rewrite !Z.mod_pow2_bits_low by lia.
  reflexivity.
Qed.

Lemma put_pos_or_byte_out (st : state) :
  pOUT (put_pos_or_byte st)
  = pOUT st ++
    (if len (dpos st) >=? MIN_LEN
     then nbits (pos (dpos st)) (Z.to_nat num_POS_BITS)
     else fst (fgk_encode_symbol (fgk st)
                 (mtf_rank (mtf_list st) (rd (pattern st) (pat_cnt st))))).
Proof. unfold put_pos_or_byte. case_match; reflexivity. Qed.

Lemma put_pos_or_byte_len (st : state) :
  len (dpos (put_pos_or_byte st))
  = if len (dpos st) >=? MIN_LEN then len (dpos st) else 1.
Proof. unfold put_pos_or_byte. case_match; reflexivity. Qed.

Lemma put_pos_or_byte_frame (st : state) :
  win_buf (put_pos_or_byte st) = win_buf st
  /\ pattern (put_pos_or_byte st) = pattern st
  /\ tab (put_pos_or_byte st) = tab st
  /\ win_cnt (put_pos_or_byte st) = win_cnt st
  /\ pat_cnt (put_pos_or_byte st) = pat_cnt st
  /\ buf_cnt (put_pos_or_byte st) = buf_cnt st
  /\ gIN (put_pos_or_byte st) = gIN st.
Proof. unfold put_pos_or_byte. case_match; repeat split. Qed.

Lemma put_len_frame (st : state) :
  win_buf (put_len st) = win_buf st
  /\ tab (put_len st) = tab st
  /\ win_cnt (put_len st) = win_cnt st
  /\ buf_cnt (put_len st) = buf_cnt st
  /\ gIN (put_len st) = gIN st.
Proof. unfold put_len. case_match; repeat split. Qed.

Lemma slide_refill_out (st : state) :
  pOUT (refill num_POS_BITS (slide num_POS_BITS st)) = pOUT st.
Proof. reflexivity. Qed.

Lemma slide_refill_coder (st : state) :
  mtf_list (refill num_POS_BITS (slide num_POS_BITS st)) = mtf_list st
  /\ fgk (refill num_POS_BITS (slide num_POS_BITS st)) = fgk st
  /\ dpos (refill num_POS_BITS (slide num_POS_BITS st)) = dpos st.
Proof. repeat split. Qed.

(** The bits [put_codes] appends for the match [dpos]. *)
Lemma put_codes_out (st : state) :
  pOUT (put_codes st)
  = pOUT st ++ len_code_bits (len (dpos st)) ++
    (if len (dpos st) >=? MIN_LEN
     then nbits (pos (dpos st)) (Z.to_nat num_POS_BITS)
     else fst (fgk_encode_symbol (fgk st)
                 (mtf_rank (mtf_list st) (rd (pattern st) (pat_cnt st))))).
Proof.
  unfold put_codes. rewrite slide_refill_out.
  rewrite put_pos_or_byte_out, put_len_out, put_len_dpos.
  destruct (put_len_coder st) as [-> ->].
  destruct (put_len_input st) as [-> ->].
  now rewrite <- app_assoc.
Qed.

(** ** The framing of a step *)

Lemma encode_step_out (st : state) :
  pOUT (encode_step st)
  = pOUT (put_prefix (with_dpos st (search st)))
      ++ len_code_bits (len (search st))
      ++ (if len (search st) >=? MIN_LEN
          then nbits (pos (search st)) (Z.to_nat num_POS_BITS)
          else fst (fgk_encode_symbol (fgk st)
                      (mtf_rank (mtf_list st) (rd (pattern st) (pat_cnt st))))).
Proof.
  unfold encode_step. rewrite put_codes_out.
  rewrite put_prefix_dpos. cbn [dpos with_dpos].
  unfold put_prefix. repeat case_match; reflexivity.
Qed.

(** C1: the bits a step appends are [1], the folded unary length code and
    the position in [num_POS_BITS] bits when the match is longer than
    [MIN_LEN]; [0 1] and the position alone when it is [MIN_LEN] long;
    [0 0] and the FGK code of the MTF rank of the byte at [pattern[pat_cnt]]
    when it is shorter. *)
Theorem C1_step_framing (st : state) :
  pOUT (encode_step st)
  = pOUT st ++
    (if len (search st) >? MIN_LEN
     then [true] ++ folded_unary_spec (len (search st) - 5)
                 ++ nbits (pos (search st)) (Z.to_nat num_POS_BITS)
     else if len (search st) =? MIN_LEN
          then [false; true]
                 ++ nbits (pos (search st)) (Z.to_nat num_POS_BITS)
          else [false; false]
                 ++ fst (fgk_encode_symbol (fgk st)
                           (mtf_rank (mtf_list st)
                                     (rd (pattern st) (pat_cnt st))))).
Proof.
  rewrite encode_step_out, put_prefix_out.
  cbn [dpos with_dpos pOUT].
  rewrite <- app_assoc. f_equal.
  destruct (len (search st) >? MIN_LEN) eqn:Hgt.
  - rewrite len_code_bits_spec by lia.
    replace (len (search st) >=? MIN_LEN) with true by lia.
    reflexivity.
  - assert (Hnil : len_code_bits (len (search st)) = [])
      by (unfold len_code_bits; now rewrite Hgt).
    rewrite Hnil.
    destruct (len (search st) =? MIN_LEN) eqn:Heq.
    + replace (len (search st) >=? MIN_LEN) with true by lia. reflexivity.
    + replace (len (search st) >=? MIN_LEN) with false by lia. reflexivity.
Qed.

(** ** The chain walk of [search] *)

Lemma singleton_split {A} (x v : A) l1 l2 :
  [x] = l1 ++ v :: l2 -> l1 = [] /\ v = x /\ l2 = [].
Proof.
  destruct l1 as [|y [|z l1]]; cbn; intros H; try discriminate.
  now injection H as -> ->.
Qed.

Lemma suffix_match_range fuel w p cnt i j k :
  k < cnt ->
  k <= suffix_match num_POS_BITS fuel w p cnt i j k <= cnt.
Proof.
  revert j k. induction fuel as [|f IH]; intros j k Hk; cbn [suffix_match].
  - lia.
  - destruct (_ =? _); [| lia].
    destruct (k + 1 <? cnt) eqn:Hlt; [| lia].
    specialize (IH (j + 1) (k + 1) ltac:(lia)). lia.
Qed.

(** An accepted node records a length above the best so far, and never more
    than [buf_cnt]. *)
Lemma candidate_range (st : state) i d k :
  candidate num_POS_BITS st i d = Some k ->
  len d < buf_cnt st ->
  len d < k <= buf_cnt st.
Proof.
  unfold candidate. intros H Hd.
  destruct (context_match _ _ _ _ _ _); [| discriminate].
  injection H as <-.
  destruct (len d + 1 <? buf_cnt st) eqn:Hlt; [| lia].
  pose proof (suffix_match_range (Z.to_nat (buf_cnt st - (len d + 1)))
                (win_buf st) (pattern st) (buf_cnt st) i
                (Z.land (pat_cnt st + len d + 1) PMASK) (len d + 1)
                ltac:(lia)).
  lia.
Qed.

Ltac walk_cases Hc Hb Hm :=
  cbn [walk];
  match goal with
  | |- context [?i =? LZ_NULL] => destruct (i =? LZ_NULL)
  end;
  [ | match goal with
      | |- context [candidate ?b ?st ?i ?d] =>
          destruct (candidate b st i d) as [?k|] eqn:Hc
      end;
      [ match goal with
        | |- context [(?a =? ?b) || ?c] => destruct ((a =? b) || c) eqn:Hb
        end;
        [ | match goal with
            | |- context [?m + 1 =? FAR_LIST] =>
                destruct (m + 1 =? FAR_LIST) eqn:Hm
            end ]
      | match goal with
        | |- context [?m + 1 =? FAR_LIST] =>
            destruct (m + 1 =? FAR_LIST) eqn:Hm
        end ] ].

Lemma walk_visits fuel (st : state) i m n d :
  0 <= m < FAR_LIST ->
  m + Z.of_nat (length (snd (walk num_POS_BITS fuel st i m n d))) <= FAR_LIST.
Proof.
  revert i m n d. induction fuel as [|f IH]; intros i m n d Hm0.
  - cbn. lia.
  - walk_cases Hc Hb Hm; cbn [snd length]; try lia.
    + specialize (IH (rd (lznext (tab st)) i) (m + 1) (n + 1) (mkDpos i k)
                     ltac:(lia)). lia.
    + specialize (IH (rd (lznext (tab st)) i) (m + 1) n d ltac:(lia)). lia.
Qed.

Lemma walk_accepts fuel (st : state) i m n d :
  0 <= n < NMATCH ->
  n + Z.of_nat (length (List.filter accepted
                          (snd (walk num_POS_BITS fuel st i m n d))))
  <= NMATCH.
Proof.
  revert i m n d. induction fuel as [|f IH]; intros i m n d Hn0.
  - cbn. lia.
  - walk_cases Hc Hb Hm; cbn [snd List.filter accepted v_len length]; try lia.
    + specialize (IH (rd (lznext (tab st)) i) (m + 1) (n + 1) (mkDpos i k)
                     ltac:(lia)). lia.
    + specialize (IH (rd (lznext (tab st)) i) (m + 1) n d ltac:(lia)). lia.
Qed.

(** A visit that is not the last one left every reason to stop unmet. *)
Lemma walk_stops fuel (st : state) i m n d l1 v l2 :
  0 <= m < FAR_LIST -> 0 <= n < NMATCH ->
  snd (walk num_POS_BITS fuel st i m n d) = l1 ++ v :: l2 ->
  l2 <> [] ->
  m + Z.of_nat (length (l1 ++ [v])) < FAR_LIST
  /\ n + Z.of_nat (length (List.filter accepted (l1 ++ [v]))) < NMATCH
  /\ v_len v <> Some (buf_cnt st).
Proof.
  revert i m n d l1. induction fuel as [|f IH]; intros i m n d l1 Hm0 Hn0.
  - cbn. intros H. now destruct l1.
  - walk_cases Hc Hb Hm; cbn [snd]; intros Hlog Hl2;
      try (destruct l1 as [|? [|? ?]]; cbn in Hlog; congruence).
    + apply orb_false_iff in Hb as [Hb1 Hb2].
      assert (Hm1 : 0 <= m + 1 < FAR_LIST) by lia.
      assert (Hn1 : 0 <= n + 1 < NMATCH) by lia.
      destruct l1 as [|v0 l1]; cbn [app] in Hlog; injection Hlog as <- Hrest.
      * cbn [app length List.filter accepted v_len].
        repeat split; try lia. cbn. intros [=]. lia.
      * destruct (IH _ _ _ _ _ Hm1 Hn1 Hrest Hl2) as (H1 & H2 & H3).
        cbn [app length List.filter accepted v_len].
        repeat split; try assumption; cbn [length]; lia.
    + assert (Hm1 : 0 <= m + 1 < FAR_LIST) by lia.
      destruct l1 as [|v0 l1]; cbn [app] in Hlog; injection Hlog as <- Hrest.
      * cbn [app length List.filter accepted v_len].
        repeat split; try lia. cbn. discriminate.
      * destruct (IH _ _ _ _ _ Hm1 Hn0 Hrest Hl2) as (H1 & H2 & H3).
        cbn [app length List.filter accepted v_len].
        repeat split; try assumption; cbn [length]; lia.
Qed.

(** The lengths recorded along the walk grow strictly, from the best match
    the walk starts with, and stay within [buf_cnt]. *)
Lemma walk_extends fuel (st : state) i m n d l1 v l2 k :
  len d < buf_cnt st ->
  snd (walk num_POS_BITS fuel st i m n d) = l1 ++ v :: l2 ->
  v_len v = Some k ->
  len d < k <= buf_cnt st
  /\ forall v' k', In v' l1 -> v_len v' = Some k' -> k' < k.
Proof.
  revert i m n d l1. induction fuel as [|f IH]; intros i m n d l1 Hd.
  - cbn. intros H. now destruct l1.
  - walk_cases Hc Hb Hm; cbn [snd]; intros Hlog Hk.
    + now destruct l1.
    + apply singleton_split in Hlog as (-> & -> & ->).
      cbn in Hk. injection Hk as <-.
      pose proof (candidate_range _ _ _ _ Hc Hd).
      split; [lia | intros ? ? []].
    + apply singleton_split in Hlog as (-> & -> & ->).
      cbn in Hk. injection Hk as <-.
      pose proof (candidate_range _ _ _ _ Hc Hd).
      split; [lia | intros ? ? []].
    + pose proof (candidate_range _ _ _ _ Hc Hd) as Hr.
      apply orb_false_iff in Hb as [Hb1 Hb2].
      destruct l1 as [|v0 l1]; cbn [app] in Hlog; injection Hlog as <- Hrest.
      * cbn in Hk. injection Hk as <-. split; [lia | intros ? ? []].
      * assert (Hd1 : len (mkDpos i k0) < buf_cnt st) by (cbn; lia).
        destruct (IH _ _ _ (mkDpos i k0) _ Hd1 Hrest Hk) as (H1 & H2).
        cbn [len] in H1.
        split; [lia |]. intros v' k' [<- | Hin] Hv'.
        -- cbn in Hv'. injection Hv' as <-. lia.
        -- eauto.
    + apply singleton_split in Hlog as (-> & -> & ->). discriminate.
    + destruct l1 as [|v0 l1]; cbn [app] in Hlog; injection Hlog as <- Hrest.
      * cbn in Hk. discriminate.
      * destruct (IH _ _ _ d _ Hd Hrest Hk) as (H1 & H2).
        split; [lia |]. intros v' k' [<- | Hin] Hv'.
        -- cbn in Hv'. discriminate.
        -- eauto.
Qed.

(** With [FAR_LIST - m] passes of fuel or more, the walk ends by its own
    tests: more fuel changes nothing. *)
Lemma walk_fuel f1 f2 (st : state) i m n d :
  0 <= m < FAR_LIST ->
  (Z.to_nat (FAR_LIST - m) <= f1)%nat ->
  (Z.to_nat (FAR_LIST - m) <= f2)%nat ->
  walk num_POS_BITS f1 st i m n d = walk num_POS_BITS f2 st i m n d.
Proof.
  revert f2 i m n d.
  induction f1 as [|f1 IH]; intros f2 i m n d Hm0 H1 H2; [lia |].
  destruct f2 as [|f2]; [lia |].
  cbn [walk].
  destruct (i =? LZ_NULL); [reflexivity |].
  destruct (candidate num_POS_BITS st i d) as [k|].
  - destruct ((k =? buf_cnt st) || (n + 1 =? NMATCH)); [reflexivity |].
    destruct (m + 1 =? FAR_LIST) eqn:Hm; [reflexivity |].
    rewrite (IH f2) by lia. reflexivity.
  - destruct (m + 1 =? FAR_LIST) eqn:Hm; [reflexivity |].
    rewrite (IH f2) by lia. reflexivity.
Qed.

(** The result of the walk is the last accepted node, with its length. *)
Lemma walk_best fuel (st : state) i m n d :
  fst (walk num_POS_BITS fuel st i m n d)
  = fold_left (fun b v => match v_len v with
                          | Some k => mkDpos (v_node v) k
                          | None => b
                          end)
              (snd (walk num_POS_BITS fuel st i m n d)) d.
Proof.
  revert i m n d. induction fuel as [|f IH]; intros i m n d; [reflexivity |].
  walk_cases Hc Hb Hm; cbn [fst snd fold_left v_len v_node]; try reflexivity;
    apply IH.
Qed.

Lemma walk_len fuel (st : state) i m n d :
  len d < buf_cnt st ->
  len d <= len (fst (walk num_POS_BITS fuel st i m n d)) <= buf_cnt st.
Proof.
  revert i m n d. induction fuel as [|f IH]; intros i m n d Hd.
  - cbn. lia.
  - walk_cases Hc Hb Hm; cbn [fst len]; try lia;
      try (pose proof (candidate_range _ _ _ _ Hc Hd); lia).
    + pose proof (candidate_range _ _ _ _ Hc Hd) as Hr.
      apply orb_false_iff in Hb as [Hb1 Hb2].
      assert (Hd1 : len (mkDpos i k) < buf_cnt st) by (cbn; lia).
      specialize (IH (rd (lznext (tab st)) i) (m + 1) (n + 1) _ Hd1).
      cbn [len] in IH. lia.
    + apply IH; assumption.
Qed.

(** The match [search] returns is never longer than the look-ahead. *)
Lemma search_len (st : state) :
  0 <= len (search st) /\ (0 < buf_cnt st -> len (search st) <= buf_cnt st).
Proof.
  unfold search, search_log.
  destruct (buf_cnt st >? 1) eqn:Hb.
  - pose proof (walk_len (Z.to_nat FAR_LIST) st
                  (rd (lzhash (tab st))
                      (hash HSHIFT (pattern st) (pat_cnt st) PMASK WMASK))
                  0 0 (mkDpos 0 0)) as H.
    cbn [len] in H. specialize (H ltac:(lia)). lia.
  - cbn. lia.
Qed.

(** C4: the walk of [search] looks at no more than [FAR_LIST] = 4096 chain
    nodes and accepts no more than [NMATCH] = 196 of them; a node that is
    not the last one looked at left both counts below their caps and was not
    a match of the full [buf_cnt] bytes; every accepted node extends the
    best match so far; the caps are those of the counters [m] and [n], not
    of the fuel. *)
Theorem C4_search_caps (st : state) :
  let log := snd (search_log st) in
  Z.of_nat (length log) <= FAR_LIST
  /\ FAR_LIST = 4096
  /\ Z.of_nat (length (List.filter accepted log)) <= NMATCH
  /\ NMATCH = 196
  /\ (forall l1 v l2, log = l1 ++ v :: l2 -> l2 <> [] ->
        Z.of_nat (length (l1 ++ [v])) < FAR_LIST
        /\ Z.of_nat (length (List.filter accepted (l1 ++ [v]))) < NMATCH
        /\ v_len v <> Some (buf_cnt st))
  /\ (forall l1 v l2 k, log = l1 ++ v :: l2 -> v_len v = Some k ->
        0 < k <= buf_cnt st
        /\ forall v' k', In v' l1 -> v_len v' = Some k' -> k' < k)
  /\ (forall fuel, (Z.to_nat FAR_LIST <= fuel)%nat -> 1 < buf_cnt st ->
        walk num_POS_BITS fuel st
             (rd (lzhash (tab st))
                 (hash HSHIFT (pattern st) (pat_cnt st) PMASK WMASK))
             0 0 (mkDpos 0 0)
        = search_log st).
Proof.
  cbv zeta. unfold search_log.
  set (i := rd (lzhash (tab st)) _).
  assert (HF : 0 <= 0 < FAR_LIST) by (now cbv).
  assert (HN : 0 <= 0 < NMATCH) by (now cbv).
  destruct (buf_cnt st >? 1) eqn:Hb.
  - split; [| split; [reflexivity | split; [| split; [reflexivity |
      split; [| split]]]]].
    + pose proof (walk_visits (Z.to_nat FAR_LIST) st i 0 0 (mkDpos 0 0) HF).
      lia.
    + pose proof (walk_accepts (Z.to_nat FAR_LIST) st i 0 0 (mkDpos 0 0) HN).
      lia.
    + intros l1 v l2 Hlog Hl2.
      destruct (walk_stops _ _ _ _ _ _ _ _ _ HF HN Hlog Hl2) as (H1 & H2 & H3).
      split; [lia | split; [lia | exact H3]].
    + intros l1 v l2 k Hlog Hk.
      assert (Hd : len (mkDpos 0 0) < buf_cnt st) by (cbn; lia).
      destruct (walk_extends _ _ _ _ _ _ _ _ _ _ Hd Hlog Hk) as [H1 H2].
      cbn [len] in H1. split; [lia | exact H2].
    + intros fuel Hf _. apply walk_fuel; [exact HF | lia | lia].
  - cbn [snd length List.filter].
    split; [now cbv |]. split; [reflexivity |]. split; [now cbv |].
    split; [reflexivity |]. split; [| split].
    + intros l1 v l2 Hlog. now destruct l1.
    + intros l1 v l2 k Hlog. now destruct l1.
    + intros fuel _ Hgt. lia.
Qed.

(** ** A look-ahead of one byte *)

(** C7: when a step begins with [buf_cnt = 1] the chain walk is not entered
    (no node is visited), [search] returns length 0, and the step writes a
    literal: [0 0], then the FGK code of the MTF rank of the look-ahead
    byte; the length used for the slide is 1. *)
Theorem C7_single_byte_literal (st : state) :
  buf_cnt st = 1 ->
  search_log st = (mkDpos 0 0, [])
  /\ len (search st) = 0
  /\ pOUT (encode_step st)
     = pOUT st ++ [false; false]
         ++ fst (fgk_encode_symbol (fgk st)
                   (mtf_rank (mtf_list st) (rd (pattern st) (pat_cnt st))))
  /\ len (dpos (encode_step st)) = 1.
Proof.
  intros Hb.
  assert (Hs : search_log st = (mkDpos 0 0, [])).
  { unfold search_log. rewrite Hb. reflexivity. }
  assert (Hl : len (search st) = 0).
  { unfold search. now rewrite Hs. }
  split; [exact Hs |]. split; [exact Hl |]. split.
  - rewrite encode_step_out, put_prefix_out. cbn [dpos with_dpos pOUT].
    rewrite Hl, <- app_assoc. reflexivity.
  - unfold encode_step, put_codes.
    destruct (slide_refill_coder
                (put_pos_or_byte
                   (put_len (put_prefix (with_dpos st (search st))))))
      as (_ & _ & ->).
    rewrite put_pos_or_byte_len, put_len_dpos, put_prefix_dpos.
    cbn [dpos with_dpos]. now rewrite Hl.
Qed.

(** ** Sizes and masks *)

Lemma win_BUFSIZE_pow : 0 <= num_POS_BITS -> WSIZE = 2 ^ num_POS_BITS.
Proof. intros H. unfold win_BUFSIZE. now rewrite Z.shiftl_1_l. Qed.

Lemma pat_BUFSIZE_pow : 1 <= num_POS_BITS -> PSIZE = 2 ^ (num_POS_BITS - 1).
Proof.
  intros H. unfold pat_BUFSIZE. rewrite win_BUFSIZE_pow by lia.
  rewrite Z.shiftr_div_pow2 by lia.
  replace num_POS_BITS with (num_POS_BITS - 1 + 1) at 1 by lia.
  rewrite Z.pow_add_r by lia. now rewrite Z.div_mul by lia.
Qed.

Lemma win_BUFSIZE_pos : 0 <= num_POS_BITS -> 0 < WSIZE.
Proof. intros H. rewrite win_BUFSIZE_pow by lia. apply Z.pow_pos_nonneg; lia. Qed.

Lemma pat_BUFSIZE_pos : 1 <= num_POS_BITS -> 0 < PSIZE.
Proof. intros H. rewrite pat_BUFSIZE_pow by lia. apply Z.pow_pos_nonneg; lia. Qed.

Lemma pat_BUFSIZE_half : 1 <= num_POS_BITS -> WSIZE = 2 * PSIZE.
Proof.
  intros H. rewrite win_BUFSIZE_pow, pat_BUFSIZE_pow by lia.
  rewrite <- Z.pow_succ_r by lia. f_equal. lia.
Qed.

(** [x & win_MASK] is [x] modulo the window size. *)
Lemma land_win_MASK x : 0 <= num_POS_BITS -> Z.land x WMASK = x mod WSIZE.
Proof.
  intros H. unfold win_MASK. rewrite win_BUFSIZE_pow by lia.
  rewrite <- Z.land_ones by lia. f_equal. rewrite Z.ones_equiv. lia.
Qed.

(** [x & pat_MASK] is [x] modulo the look-ahead size. *)
Lemma land_pat_MASK x : 1 <= num_POS_BITS -> Z.land x PMASK = x mod PSIZE.
Proof.
  intros H. unfold pat_MASK. rewrite pat_BUFSIZE_pow by lia.
  rewrite <- Z.land_ones by lia. f_equal. rewrite Z.ones_equiv. lia.
Qed.

(** ** The counters *)

Lemma put_codes_counters (st : state) :
  let L := len (dpos (put_codes st)) in
  win_cnt (put_codes st) = Z.land (win_cnt st + L) WMASK
  /\ pat_cnt (put_codes st) = Z.land (pat_cnt st + L) PMASK.
Proof.
  cbv zeta. unfold put_codes.
  set (st1 := put_pos_or_byte (put_len st)).
  destruct (slide_refill_coder st1) as (_ & _ & ->).
  destruct (put_pos_or_byte_frame (put_len st))
    as (_ & _ & _ & Hw & Hp & _ & _).
  destruct (put_len_frame st) as (_ & _ & Hw' & _ & _).
  destruct (put_len_input st) as (_ & Hp').
  fold st1 in Hw, Hp. cbn [refill slide win_cnt pat_cnt with_counters
    with_input with_window dpos].
  rewrite Hw, Hp, Hw', Hp'. split; reflexivity.
Qed.

Lemma compress_trace_Forall (P : state -> Prop) fuel (st : state) :
  P st -> (forall s, P (encode_step s)) -> Forall P (compress_trace fuel st).
Proof.
  intros H0 Hstep. revert st H0.
  induction fuel as [|f IH]; intros st H0; cbn [compress_trace].
  - destruct (buf_cnt st >? 0); constructor.
  - destruct (buf_cnt st >? 0); constructor; [exact H0 |].
    apply IH, Hstep.
Qed.

(** C6: with the window exponent in 12..20, the counters left by
    [put_codes] satisfy [0 <= win_cnt < W] and [0 <= pat_cnt < P], for
    [W = 1 << num_POS_BITS] and [P = W / 2]; so do the counters at the top
    and after every step of the run on any input. *)
Theorem C6_counters_in_range :
  12 <= num_POS_BITS <= 20 ->
  WSIZE = 2 ^ num_POS_BITS /\ PSIZE = WSIZE / 2
  /\ (forall st : state, counters_in_range num_POS_BITS (put_codes st))
  /\ (forall junk input fuel,
        Forall (fun s => counters_in_range num_POS_BITS s
                         /\ counters_in_range num_POS_BITS (encode_step s))
               (compress_trace fuel (init_state junk input))).
Proof.
  intros HB.
  assert (HW : 0 < WSIZE) by (apply win_BUFSIZE_pos; lia).
  assert (HP : 0 < PSIZE) by (apply pat_BUFSIZE_pos; lia).
  assert (Hput : forall st : state, counters_in_range num_POS_BITS (put_codes st)).
  { intros st. unfold counters_in_range.
    destruct (put_codes_counters st) as [-> ->].
    rewrite land_win_MASK, land_pat_MASK by lia.
    split; apply Z.mod_pos_bound; assumption. }
  split; [apply win_BUFSIZE_pow; lia |].
  split.
  { rewrite (pat_BUFSIZE_half ltac:(lia)).
    now rewrite Z.mul_comm, Z.div_mul by lia. }
  split; [exact Hput |].
  intros junk input fuel.
  apply compress_trace_Forall.
  - split; [| apply Hput].
    unfold counters_in_range. cbn [win_cnt pat_cnt init_state]. lia.
  - intros s. split; apply Hput.
Qed.

(** ** Progress of the loop *)

Lemma byte_val_range c : 0 <= byte_val c < 256.
Proof.
  unfold byte_val. pose proof (Byte.to_N_bounded c). lia.
Qed.

(** The refill reads [min n |g|] bytes. *)
Lemma get_bytes_count n i pc p g :
  fst (fst (get_bytes num_POS_BITS n i pc p g))
  = i + Z.of_nat (Nat.min n (length g))
  /\ length (snd (get_bytes num_POS_BITS n i pc p g))
     = (length g - Nat.min n (length g))%nat.
Proof.
  revert i p g. induction n as [|n IH]; intros i p g; cbn [get_bytes].
  - cbn. lia.
  - destruct g as [|c g]; cbn [gfgetc fst snd].
    + cbn. lia.
    + pose proof (byte_val_range c).
      replace (byte_val c =? EOF) with false by (unfold EOF; lia).
      cbn [negb]. destruct (IH (i + 1) (<[Z.land (pc + i) PMASK := byte_val c]> p) g)
        as [-> ->].
      cbn [length Nat.min]. lia.
Qed.

Lemma put_prefix_frame (st : state) :
  buf_cnt (put_prefix st) = buf_cnt st /\ gIN (put_prefix st) = gIN st.
Proof. unfold put_prefix. repeat case_match; split; reflexivity. Qed.

(** The length a step slides by, and what it takes from the input. *)
Lemma encode_step_progress (st : state) :
  0 < buf_cnt st ->
  let st' := encode_step st in
  let L := len (dpos st') in
  let got := Z.min L (Z.of_nat (length (gIN st))) in
  L = (if len (search st) >=? MIN_LEN then len (search st) else 1)
  /\ 1 <= L <= buf_cnt st
  /\ Z.of_nat (length (gIN st')) = Z.of_nat (length (gIN st)) - got
  /\ buf_cnt st' = buf_cnt st - (L - got).
Proof.
  intros Hb. cbv zeta.
  unfold encode_step, put_codes.
  set (st0 := put_prefix (with_dpos st (search st))).
  set (st1 := put_pos_or_byte (put_len st0)).
  destruct (slide_refill_coder st1) as (_ & _ & ->).
  assert (HL : len (dpos st1)
               = if len (search st) >=? MIN_LEN then len (search st) else 1).
  { unfold st1. rewrite put_pos_or_byte_len, put_len_dpos.
    unfold st0. rewrite put_prefix_dpos. reflexivity. }
  assert (Hb1 : buf_cnt st1 = buf_cnt st /\ gIN st1 = gIN st).
  { unfold st1.
    destruct (put_pos_or_byte_frame (put_len st0))
      as (_ & _ & _ & _ & _ & -> & ->).
    destruct (put_len_frame st0) as (_ & _ & _ & -> & ->).
    unfold st0. destruct (put_prefix_frame (with_dpos st (search st)))
      as [-> ->]. split; reflexivity. }
  destruct Hb1 as [Hbc Hg].
  destruct (search_len st) as [Hs0 Hs1]. specialize (Hs1 Hb).
  assert (HLr : 1 <= len (dpos st1) <= buf_cnt st).
  { rewrite HL. unfold MIN_LEN. destruct (len (search st) >=? 4) eqn:E; lia. }
  split; [exact HL |]. split; [exact HLr |].
  cbn [refill slide gIN buf_cnt with_counters with_input with_window dpos
       pattern pat_cnt].
  destruct (get_bytes_count (Z.to_nat (len (dpos st1))) 0 (pat_cnt st1)
              (pattern st1) (gIN st1)) as [Hi Hlen].
  rewrite Hi, Hlen, Hbc, Hg. lia.
Qed.

(** [fread] reads [min n |g|] bytes. *)
Lemma fread_count buf i n g :
  snd (fst (fread buf i n g)) = i + Z.of_nat (Nat.min n (length g))
  /\ length (snd (fread buf i n g)) = (length g - Nat.min n (length g))%nat.
Proof.
  revert buf i g. induction n as [|n IH]; intros buf i g; cbn [fread].
  - cbn. lia.
  - destruct g as [|c g].
    + cbn. lia.
    + destruct (IH (<[i := byte_val c]> buf) (i + 1) g) as [-> ->].
      cbn [length Nat.min]. lia.
Qed.

(** Fuel for as many passes as there are bytes left ends the loop. *)
Lemma compress_loop_ends fuel (st : state) :
  0 <= buf_cnt st ->
  buf_cnt st + Z.of_nat (length (gIN st)) <= Z.of_nat fuel ->
  exists st', compress_loop fuel st = Some st' /\ buf_cnt st' = 0.
Proof.
  revert st. induction fuel as [|f IH]; intros st H0 Hm;
    cbn [compress_loop];
    destruct (buf_cnt st >? 0) eqn:Hb.
  - lia.
  - exists st. split; [reflexivity | lia].
  - destruct (encode_step_progress st ltac:(lia)) as (_ & HL & Hg & Hbc).
    apply IH; lia.
  - exists st. split; [reflexivity | lia].
Qed.

(** On entry the look-ahead and the unread input hold the whole input. *)
Lemma init_state_measure junk input :
  0 <= buf_cnt (init_state junk input)
  /\ buf_cnt (init_state junk input)
     + Z.of_nat (length (gIN (init_state junk input)))
     <= Z.of_nat (length input).
Proof.
  cbn [buf_cnt gIN init_state].
  destruct (fread_count junk 0 (Z.to_nat PSIZE) input) as [-> ->]. lia.
Qed.

(** C10: a step slides by a length of at least 1 and at most [buf_cnt] (1
    for a literal); it takes [got = min L |input left|] bytes from the input
    and lowers [buf_cnt] by the shortfall [L - got], so the bytes left in the
    input and the look-ahead together drop by [L]; on every input the loop
    of [main] ends, with [buf_cnt = 0], within one pass per input byte. *)
Theorem C10_compression_terminates :
  (forall st : state, 0 < buf_cnt st ->
     let L := len (dpos (encode_step st)) in
     let got := Z.min L (Z.of_nat (length (gIN st))) in
     L = (if len (search st) >=? MIN_LEN then len (search st) else 1)
     /\ 1 <= L
     /\ Z.of_nat (length (gIN (encode_step st)))
        = Z.of_nat (length (gIN st)) - got
     /\ buf_cnt (encode_step st) = buf_cnt st - (L - got)
     /\ 0 <= buf_cnt (encode_step st)
     /\ buf_cnt (encode_step st) + Z.of_nat (length (gIN (encode_step st)))
        = buf_cnt st + Z.of_nat (length (gIN st)) - L)
  /\ (forall junk input,
        exists st', compress_loop (length input) (init_state junk input)
                    = Some st'
                    /\ buf_cnt st' = 0).
Proof.
  split.
  - intros st Hb.
    destruct (encode_step_progress st Hb) as (HL & HLr & Hg & Hbc).
    cbv zeta. repeat split; try assumption; lia.
  - intros junk input.
    destruct (init_state_measure junk input) as [H0 Hm].
    apply compress_loop_ends; assumption.
Qed.

(** ** The entropy coder's state *)

Lemma put_codes_coder (st : state) :
  (mtf_list (put_codes st), fgk (put_codes st))
  = if len (dpos st) >=? MIN_LEN then (mtf_list st, fgk st)
    else coder_after fgk_encode_symbol [rd (pattern st) (pat_cnt st)]
                     (mtf_list st, fgk st).
Proof.
  unfold put_codes.
  destruct (slide_refill_coder (put_pos_or_byte (put_len st)))
    as (H1 & H2 & _).
  rewrite H1, H2. clear H1 H2.
  unfold put_pos_or_byte.
  rewrite put_len_dpos.
  destruct (put_len_coder st) as [Hm Hf].
  destruct (put_len_input st) as [Hp Hc].
  destruct (len (dpos st) >=? MIN_LEN);
    cbn [mtf_list fgk with_out with_coder with_dpos pattern pat_cnt
         coder_after fold_left fst snd];
    now rewrite Hm, Hf, ?Hp, ?Hc.
Qed.

Lemma encode_step_coder (st : state) :
  (mtf_list (encode_step st), fgk (encode_step st))
  = coder_after fgk_encode_symbol (literal_bytes num_POS_BITS [st])
                (mtf_list st, fgk st).
Proof.
  unfold encode_step. rewrite put_codes_coder.
  rewrite put_prefix_dpos. cbn [dpos with_dpos].
  unfold literal_bytes. cbn [flat_map]. rewrite app_nil_r.
  assert (H : forall s : state,
             mtf_list (put_prefix s) = mtf_list s
             /\ fgk (put_prefix s) = fgk s
             /\ pattern (put_prefix s) = pattern s
             /\ pat_cnt (put_prefix s) = pat_cnt s).
  { intros s. unfold put_prefix. repeat case_match; repeat split. }
  destruct (H (with_dpos st (search st))) as (-> & -> & -> & ->).
  cbn [mtf_list fgk pattern pat_cnt with_dpos].
  fold (search st).
  destruct (len (search st) >=? MIN_LEN); reflexivity.
Qed.

Lemma coder_after_app bs1 bs2 (c : list Z * fgk_tree) :
  coder_after fgk_encode_symbol (bs1 ++ bs2) c
  = coder_after fgk_encode_symbol bs2 (coder_after fgk_encode_symbol bs1 c).
Proof. unfold coder_after. apply fold_left_app. Qed.

Lemma compress_loop_coder fuel (st st' : state) :
  compress_loop fuel st = Some st' ->
  (mtf_list st', fgk st')
  = coder_after fgk_encode_symbol
      (literal_bytes num_POS_BITS (compress_trace fuel st))
      (mtf_list st, fgk st).
Proof.
  revert st. induction fuel as [|f IH]; intros st;
    cbn [compress_loop compress_trace];
    destruct (buf_cnt st >? 0); intros H; try discriminate;
    try (injection H as <-; reflexivity).
  apply IH in H. rewrite H.
  change (st :: compress_trace f (encode_step st))
    with ([st] ++ compress_trace f (encode_step st)).
  unfold literal_bytes at 2. rewrite flat_map_app.
  fold (literal_bytes num_POS_BITS [st]).
  fold (literal_bytes num_POS_BITS (compress_trace f (encode_step st))).
  rewrite coder_after_app, <- encode_step_coder. reflexivity.
Qed.

(** C9: [put_codes] on a match of [MIN_LEN] bytes or more leaves the MTF
    list and the FGK tree as they were; on a shorter one it applies [mtf]
    and [fgk_encode_symbol] once, to the byte at [pattern[pat_cnt]]; hence
    after a run the MTF list and the FGK tree are those obtained by coding
    the literal bytes of the run, in order, and nothing else. *)
Theorem C9_matches_leave_coder_unchanged :
  (forall st : state, MIN_LEN <= len (dpos st) ->
     mtf_list (put_codes st) = mtf_list st /\ fgk (put_codes st) = fgk st)
  /\ (forall st : state, len (dpos st) < MIN_LEN ->
        let b := rd (pattern st) (pat_cnt st) in
        mtf_list (put_codes st) = snd (mtf (mtf_list st) b)
        /\ fgk (put_codes st)
           = snd (fgk_encode_symbol (fgk st) (fst (mtf (mtf_list st) b))))
  /\ (forall fuel (st st' : state),
        compress_loop fuel st = Some st' ->
        (mtf_list st', fgk st')
        = coder_after fgk_encode_symbol
            (literal_bytes num_POS_BITS (compress_trace fuel st))
            (mtf_list st, fgk st)).
Proof.
  split; [| split].
  - intros st HL. pose proof (put_codes_coder st) as H.
    replace (len (dpos st) >=? MIN_LEN) with true in H by lia.
    injection H as H1 H2. split; [exact H1 | exact H2].
  - intros st HL. pose proof (put_codes_coder st) as H.
    replace (len (dpos st) >=? MIN_LEN) with false in H by lia.
    cbn [coder_after fold_left fst snd] in H.
    injection H as H1 H2. split; [exact H1 | exact H2].
  - exact compress_loop_coder.
Qed.

(** ** The slide *)

Lemma hash_mod w x :
  0 <= num_POS_BITS ->
  hash HSHIFT w x WMASK WMASK = hash HSHIFT w (x mod WSIZE) WMASK WMASK.
Proof.
  intros HB. pose proof (win_BUFSIZE_pos HB) as HW.
  unfold hash. rewrite !(land_win_MASK _ HB).
  rewrite Z.mod_mod by lia.
  now rewrite !(Z.add_mod_idemp_l x) by lia.
Qed.

Lemma delete_loop_spec w k n i t :
  0 <= num_POS_BITS ->
  delete_loop num_POS_BITS n i w k t
  = delete_all_spec num_POS_BITS w
      (map (fun j => (k + j) mod WSIZE) (seqZ i (Z.of_nat n))) t.
Proof.
  intros HB. revert i t. induction n as [|n IH]; intros i t.
  - reflexivity.
  - rewrite seqZ_cons by lia.
    replace (Z.pred (Z.of_nat (S n))) with (Z.of_nat n) by lia.
    cbn [delete_loop map delete_all_spec fold_left].
    rewrite IH. unfold delete_all_spec.
    rewrite (hash_mod w (k + i) HB), (land_win_MASK (k + i) HB).
    reflexivity.
Qed.

Lemma insert_loop_spec w k n i t :
  0 <= num_POS_BITS ->
  insert_loop num_POS_BITS n i w k t
  = insert_all_spec num_POS_BITS w
      (map (fun j => (k + j) mod WSIZE) (seqZ i (Z.of_nat n))) t.
Proof.
  intros HB. revert i t. induction n as [|n IH]; intros i t.
  - reflexivity.
  - rewrite seqZ_cons by lia.
    replace (Z.pred (Z.of_nat (S n))) with (Z.of_nat n) by lia.
    cbn [insert_loop map insert_all_spec fold_left].
    rewrite IH. unfold insert_all_spec.
    rewrite (hash_mod w (k + i) HB), (land_win_MASK (k + i) HB).
    reflexivity.
Qed.

(** Offsets less than a window apart fall on different cells. *)
Lemma mod_add_inj a i j s :
  0 < s -> 0 <= i < j -> j < s -> (a + i) mod s <> (a + j) mod s.
Proof.
  intros Hs Hi Hj Heq.
  assert (H : ((a + j) - (a + i)) mod s = 0).
  { rewrite Zminus_mod, Heq, Z.sub_diag. now apply Z.mod_0_l; lia. }
  replace (a + j - (a + i)) with (j - i) in H by lia.
  rewrite Z.mod_small in H by lia. lia.
Qed.

Lemma copy_loop_insert n p wc pc w x v :
  0 <= num_POS_BITS ->
  (forall i, 0 <= i < Z.of_nat n -> (wc + i) mod WSIZE <> x) ->
  copy_loop num_POS_BITS n p wc pc (<[x := v]> w)
  = <[x := v]> (copy_loop num_POS_BITS n p wc pc w).
Proof.
  intros HB. revert w. induction n as [|n IH]; intros w Hx.
  - reflexivity.
  - cbn [copy_loop].
    rewrite (land_win_MASK (wc + Z.of_nat n) HB).
    rewrite insert_insert_ne by (apply Hx; lia).
    apply IH. intros i Hi. apply Hx. lia.
Qed.

(** The copy, written from the last byte down, is the copy of the bytes
    [0 .. L-1] in any order: the cells are distinct. *)
Lemma copy_loop_spec n p wc pc w :
  1 <= num_POS_BITS ->
  Z.of_nat n <= WSIZE ->
  copy_loop num_POS_BITS n p wc pc w
  = copy_spec num_POS_BITS p wc pc (Z.of_nat n) w.
Proof.
  intros HB. assert (HB0 : 0 <= num_POS_BITS) by lia.
  pose proof (win_BUFSIZE_pos HB0) as HW.
  revert w. induction n as [|n IH]; intros w Hn.
  - reflexivity.
  - unfold copy_spec. rewrite seqZ_S, fold_left_app.
    cbn [fold_left copy_loop]. rewrite Z.add_0_l.
    fold (copy_spec num_POS_BITS p wc pc (Z.of_nat n) w).
    rewrite <- IH by lia.
    rewrite (land_win_MASK (wc + Z.of_nat n) HB0),
            (land_pat_MASK (pc + Z.of_nat n) HB).
    apply copy_loop_insert; [exact HB0 |].
    intros i Hi. apply mod_add_inj; lia.
Qed.

Lemma slide_start wc :
  0 <= num_POS_BITS -> 3 <= WSIZE -> 0 <= wc < WSIZE ->
  (if wc - (HASH_BYTES_N - 1) <? 0
   then WSIZE + (wc - (HASH_BYTES_N - 1))
   else wc - (HASH_BYTES_N - 1))
  = (wc - (HASH_BYTES_N - 1)) mod WSIZE.
Proof.
  intros HB HW Hwc. unfold HASH_BYTES_N.
  destruct (wc - (4 - 1) <? 0) eqn:E.
  - apply (Z.mod_unique _ _ (-1)); lia.
  - symmetry. apply Z.mod_small. lia.
Qed.

Lemma slide_refines (st : state) :
  1 <= num_POS_BITS -> 3 <= WSIZE ->
  0 <= win_cnt st < WSIZE ->
  0 <= len (dpos st) <= WSIZE ->
  (win_buf (slide num_POS_BITS st), tab (slide num_POS_BITS st))
  = slide_spec num_POS_BITS st (len (dpos st)).
Proof.
  intros HB HW Hwc HL. assert (HB0 : 0 <= num_POS_BITS) by lia.
  unfold slide, slide_spec, slide_positions_spec.
  cbn [win_buf tab with_window].
  rewrite (slide_start _ HB0 HW Hwc).
  rewrite delete_loop_spec, insert_loop_spec by exact HB0.
  rewrite copy_loop_spec by (try exact HB; lia).
  replace (Z.of_nat (Z.to_nat (len (dpos st) + (HASH_BYTES_N - 1))))
    with (len (dpos st) + HASH_BYTES_N - 1) by (unfold HASH_BYTES_N; lia).
  rewrite Z2Nat.id by lia.
  reflexivity.
Qed.

(** ** The first step on a window of zeros *)

Lemma rd_insert (a : gmap Z Z) i v x :
  rd (<[i := v]> a) x = if decide (i = x) then v else rd a x.
Proof. unfold rd. rewrite lookup_insert. now destruct (decide (i = x)). Qed.

Lemma memset_rd a i v n x :
  rd a x = v -> rd (memset a i v n) x = v.
Proof.
  revert a i. induction n as [|n IH]; intros a i Ha; cbn [memset].
  - exact Ha.
  - apply IH. rewrite rd_insert. now destruct (decide (i = x)).
Qed.

(** The hash of four zero bytes is 0. *)
Lemma hash_zero sh w x m1 m2 :
  (forall y, rd w y = 0) -> hash sh w x m1 m2 = 0.
Proof.
  intros Hw. unfold hash. rewrite !Hw.
  now rewrite !Z.shiftl_0_l, !Z.lxor_0_l, Z.land_0_l.
Qed.

(** After the initial loop over a window of zeros the chain of hash 0 starts
    at the position inserted last. *)
Lemma init_list_head n i w t :
  (forall y, rd w y = 0) ->
  (0 < n)%nat ->
  rd (lzhash (init_list num_POS_BITS n i w t)) 0 = i + Z.of_nat n - 1.
Proof.
  intros Hw. revert i t. induction n as [|n IH]; intros i t Hn; [lia |].
  cbn [init_list]. rewrite (hash_zero _ _ _ _ _ Hw).
  destruct n as [|n].
  - cbn [init_list insert_lznode lzhash]. rewrite rd_insert.
    rewrite decide_True by reflexivity. lia.
  - rewrite IH by lia. lia.
Qed.

(** [fread] stores byte [k] of the input in cell [i + k]. *)
Lemma fread_rd g buf i n k :
  (k < length g)%nat -> (length g <= n)%nat ->
  rd (fst (fst (fread buf i n g))) (i + Z.of_nat k)
  = byte_val (nth k g Byte.x00).
Proof.
  assert (Hkeep : forall g buf i n x, x < i ->
            rd (fst (fst (fread buf i n g))) x = rd buf x).
  { clear. induction g as [|c g IH]; intros buf i n x Hx.
    - now destruct n.
    - destruct n as [|n]; [reflexivity |]. cbn [fread].
      rewrite IH by lia. rewrite rd_insert.
      now rewrite decide_False by lia. }
  revert buf i n k. induction g as [|c g IH]; intros buf i n k Hk Hn.
  - cbn in Hk. lia.
  - destruct n as [|n]; [cbn in Hn; lia |]. cbn [fread].
    destruct k as [|k].
    + rewrite Z.add_0_r, Hkeep by lia. rewrite rd_insert.
      now rewrite decide_True by reflexivity.
    + replace (i + Z.of_nat (S k)) with (i + 1 + Z.of_nat k) by lia.
      cbn [length] in Hk, Hn. rewrite IH by lia. reflexivity.
Qed.

Lemma land_pat_MASK_add a t :
  1 <= num_POS_BITS ->
  Z.land (Z.land a PMASK + t) PMASK = Z.land (a + t) PMASK.
Proof.
  intros HB. rewrite !(land_pat_MASK _ HB).
  assert (0 < PSIZE) by (now apply pat_BUFSIZE_pos).
  now rewrite Z.add_mod_idemp_l by lia.
Qed.

(** Over a window of zeros, a look-ahead of zeros is matched to its end. *)
Lemma suffix_match_zero fuel w p cnt i j k :
  (forall y, rd w y = 0) ->
  (forall t, 0 <= t < cnt - k -> rd p (Z.land (j + t) PMASK) = 0) ->
  k < cnt -> fuel = Z.to_nat (cnt - k) ->
  suffix_match num_POS_BITS fuel w p cnt i j k = cnt.
Proof.
  intros Hw. revert j k. induction fuel as [|f IH]; intros j k Hp Hk Hf; [lia |].
  cbn [suffix_match]. rewrite Hw.
  specialize (Hp 0 ltac:(lia)) as Hp0. rewrite Z.add_0_r in Hp0.
  rewrite Hp0. cbn [Z.eqb].
  destruct (k + 1 <? cnt) eqn:E; [| lia].
  apply IH; [| lia | lia].
  intros t Ht. replace (j + 1 + t) with (j + (1 + t)) by lia.
  apply Hp. lia.
Qed.

Lemma candidate_zero (st : state) i :
  1 <= num_POS_BITS ->
  (forall y, rd (win_buf st) y = 0) ->
  (forall t, 0 <= t < buf_cnt st ->
     rd (pattern st) (Z.land (pat_cnt st + t) PMASK) = 0) ->
  0 < buf_cnt st ->
  candidate num_POS_BITS st i (mkDpos 0 0) = Some (buf_cnt st).
Proof.
  intros HB Hw Hp Hb. unfold candidate. cbn [len].
  change (Z.to_nat 0) with O. cbn [context_match].
  rewrite Hw, (Hp 0) by lia. cbn [Z.eqb negb]. f_equal.
  destruct (0 + 1 <? buf_cnt st) eqn:E; [| lia].
  apply suffix_match_zero; [exact Hw | | lia | reflexivity].
  intros t Ht. rewrite land_pat_MASK_add by exact HB.
  replace (pat_cnt st + 0 + 1 + t) with (pat_cnt st + (1 + t)) by lia.
  apply Hp. lia.
Qed.

(** A first node that matches the whole look-ahead ends the walk at once. *)
Lemma search_log_first_full (st : state) :
  1 < buf_cnt st ->
  let i := rd (lzhash (tab st))
              (hash HSHIFT (pattern st) (pat_cnt st) PMASK WMASK) in
  i <> LZ_NULL ->
  candidate num_POS_BITS st i (mkDpos 0 0) = Some (buf_cnt st) ->
  search_log st
  = (mkDpos i (buf_cnt st), [mkVisit i (Some (buf_cnt st))]).
Proof.
  intros Hb i Hi Hc. unfold search_log.
  replace (buf_cnt st >? 1) with true by lia.
  fold i.
  destruct (Z.to_nat FAR_LIST) as [|f] eqn:Hf; [discriminate Hf |].
  cbn [walk]. replace (i =? LZ_NULL) with false by lia.
  rewrite Hc, Z.eqb_refl. reflexivity.
Qed.

(** The bits of a step whose match is [MIN_LEN] bytes or more. *)
Lemma encode_step_out_match (st : state) :
  MIN_LEN <= len (search st) ->
  pOUT (encode_step st)
  = pOUT st ++ (if len (search st) >? MIN_LEN then [true] else [false; true])
      ++ len_code_bits (len (search st))
      ++ nbits (pos (search st)) (Z.to_nat num_POS_BITS).
Proof.
  intros HL. rewrite encode_step_out, put_prefix_out.
  cbn [dpos with_dpos pOUT]. rewrite <- app_assoc.
  replace (len (search st) >=? MIN_LEN) with true by lia.
  destruct (len (search st) >? MIN_LEN) eqn:E; [reflexivity |].
  now replace (len (search st) =? MIN_LEN) with true by lia.
Qed.

(** ** What holds at every pass *)

Lemma insert_lznode_range t h i :
  links_in_range num_POS_BITS t -> 0 <= i < WSIZE ->
  links_in_range num_POS_BITS (insert_lznode t h i).
Proof.
  intros H Hi x.
  pose proof (H x) as Hx. pose proof (H h) as Hh.
  unfold insert_lznode. cbn [lzhash lznext lzprev].
  destruct (rd (lzhash t) h =? LZ_NULL);
    rewrite ?rd_insert; repeat case_decide; unfold LZ_NULL in *; lia.
Qed.

Lemma delete_lznode_range t h i :
  links_in_range num_POS_BITS t ->
  links_in_range num_POS_BITS (delete_lznode t h i).
Proof.
  intros H x.
  pose proof (H x) as Hx. pose proof (H i) as Hi.
  unfold delete_lznode.
  destruct (rd (lzhash t) h =? i); destruct (rd (lznext t) i =? LZ_NULL);
    cbn [lzhash lznext lzprev];
    rewrite ?rd_insert; repeat case_decide; unfold LZ_NULL in *; lia.
Qed.

Lemma delete_loop_range n i w k t :
  links_in_range num_POS_BITS t ->
  links_in_range num_POS_BITS (delete_loop num_POS_BITS n i w k t).
Proof.
  revert i t. induction n as [|n IH]; intros i t H; cbn [delete_loop].
  - exact H.
  - apply IH, delete_lznode_range, H.
Qed.

Lemma land_win_MASK_range x :
  0 <= num_POS_BITS -> 0 <= Z.land x WMASK < WSIZE.
Proof.
  intros HB. rewrite land_win_MASK by exact HB.
  apply Z.mod_pos_bound. now apply win_BUFSIZE_pos.
Qed.

Lemma insert_loop_range n i w k t :
  0 <= num_POS_BITS ->
  links_in_range num_POS_BITS t ->
  links_in_range num_POS_BITS (insert_loop num_POS_BITS n i w k t).
Proof.
  intros HB. revert i t. induction n as [|n IH]; intros i t H; cbn [insert_loop].
  - exact H.
  - apply IH, insert_lznode_range; [exact H |].
    now apply land_win_MASK_range.
Qed.

Lemma init_list_range n i w t :
  0 <= i -> i + Z.of_nat n <= WSIZE ->
  links_in_range num_POS_BITS t ->
  links_in_range num_POS_BITS (init_list num_POS_BITS n i w t).
Proof.
  revert i t. induction n as [|n IH]; intros i t Hi Hn H; cbn [init_list].
  - exact H.
  - apply IH; [lia | lia |].
    apply insert_lznode_range; [| lia].
    intros x. pose proof (H x) as Hx. cbn [lzhash lznext lzprev].
    rewrite !rd_insert. repeat case_decide; unfold LZ_NULL in *; lia.
Qed.

Lemma alloc_lzhash_range :
  0 <= num_POS_BITS -> links_in_range num_POS_BITS (alloc_lzhash WSIZE).
Proof.
  intros HB x. pose proof (win_BUFSIZE_pos HB) as HW.
  unfold alloc_lzhash. cbn [lzhash lznext lzprev].
  assert (He : rd (∅ : gmap Z Z) x = 0) by (unfold rd; now rewrite lookup_empty).
  rewrite He.
  assert (Hm : forall n a i, LZ_NULL <= rd a x < WSIZE ->
                 LZ_NULL <= rd (memset a i LZ_NULL n) x < WSIZE).
  { induction n as [|n IH]; intros a i Ha; cbn [memset]; [exact Ha |].
    apply IH. rewrite rd_insert. case_decide; unfold LZ_NULL in *; lia. }
  split; [apply Hm; rewrite He |]; unfold LZ_NULL; lia.
Qed.

(** Every node the walk records is a window position. *)
Lemma walk_pos fuel (st : state) i m n d :
  links_in_range num_POS_BITS (tab st) ->
  LZ_NULL <= i < WSIZE -> 0 <= pos d < WSIZE ->
  0 <= pos (fst (walk num_POS_BITS fuel st i m n d)) < WSIZE.
Proof.
  intros H. revert i m n d. induction fuel as [|f IH]; intros i m n d Hi Hd.
  - exact Hd.
  - cbn [walk]. destruct (i =? LZ_NULL) eqn:Ei; [exact Hd |].
    assert (Hi0 : 0 <= i < WSIZE) by (unfold LZ_NULL in *; lia).
    pose proof (H i) as (_ & Hnext & _).
    destruct (candidate num_POS_BITS st i d) as [k|].
    + destruct ((k =? buf_cnt st) || (n + 1 =? NMATCH)); [exact Hi0 |].
      destruct (m + 1 =? FAR_LIST); [exact Hi0 |].
      cbn [fst]. apply IH; [exact Hnext | exact Hi0].
    + destruct (m + 1 =? FAR_LIST); [exact Hd |].
      cbn [fst]. apply IH; [exact Hnext | exact Hd].
Qed.

(** The position [search] returns is a window position. *)
Lemma search_pos (st : state) :
  0 <= num_POS_BITS ->
  links_in_range num_POS_BITS (tab st) ->
  0 <= pos (search st) < WSIZE.
Proof.
  intros HB H. pose proof (win_BUFSIZE_pos HB) as HW.
  unfold search, search_log.
  destruct (buf_cnt st >? 1); [| cbn; lia].
  apply walk_pos; [exact H | | cbn; lia].
  apply (H _).
Qed.

Lemma put_codes_in_range (st : state) :
  1 <= num_POS_BITS -> counters_in_range num_POS_BITS (put_codes st).
Proof.
  intros HB. unfold counters_in_range.
  destruct (put_codes_counters st) as [-> ->].
  rewrite land_win_MASK, land_pat_MASK by lia.
  split; apply Z.mod_pos_bound;
    [apply win_BUFSIZE_pos | apply pat_BUFSIZE_pos]; lia.
Qed.

Lemma encode_step_tab (st : state) :
  0 <= num_POS_BITS ->
  links_in_range num_POS_BITS (tab st) ->
  links_in_range num_POS_BITS (tab (encode_step st)).
Proof.
  intros HB H. unfold encode_step, put_codes.
  set (st1 := put_pos_or_byte (put_len (put_prefix (with_dpos st (search st))))).
  assert (Ht : tab st1 = tab st).
  { unfold st1.
    destruct (put_pos_or_byte_frame
                (put_len (put_prefix (with_dpos st (search st)))))
      as (_ & _ & -> & _).
    destruct (put_len_frame (put_prefix (with_dpos st (search st))))
      as (_ & -> & _).
    unfold put_prefix. repeat case_match; reflexivity. }
  cbn [refill slide tab with_counters with_input with_window].
  apply insert_loop_range; [exact HB |].
  apply delete_loop_range. now rewrite Ht.
Qed.

Lemma init_state_in_range junk input :
  1 <= num_POS_BITS -> state_in_range num_POS_BITS (init_state junk input).
Proof.
  intros HB.
  pose proof (win_BUFSIZE_pos ltac:(lia)) as HW.
  pose proof (pat_BUFSIZE_pos HB) as HP.
  unfold state_in_range, counters_in_range.
  cbn [win_cnt pat_cnt buf_cnt tab init_state].
  destruct (fread_count junk 0 (Z.to_nat PSIZE) input) as [-> _].
  split; [lia |]. split; [lia |].
  apply init_list_range; [lia | lia |].
  apply alloc_lzhash_range. lia.
Qed.

Lemma encode_step_in_range (st : state) :
  1 <= num_POS_BITS ->
  state_in_range num_POS_BITS st -> 0 < buf_cnt st ->
  state_in_range num_POS_BITS (encode_step st).
Proof.
  intros HB (Hc & Hb & Ht) Hpos.
  split; [apply put_codes_in_range; exact HB |]. split.
  - destruct (encode_step_progress st Hpos) as (_ & HL & _ & Hbc).
    rewrite Hbc. lia.
  - apply encode_step_tab; [lia | exact Ht].
Qed.

Lemma compress_trace_invariant (P : state -> Prop) fuel (st : state) :
  P st -> (forall s, P s -> 0 < buf_cnt s -> P (encode_step s)) ->
  Forall P (compress_trace fuel st).
Proof.
  intros H0 Hstep. revert st H0.
  induction fuel as [|f IH]; intros st H0; cbn [compress_trace].
  - destruct (buf_cnt st >? 0); constructor.
  - destruct (buf_cnt st >? 0) eqn:Hb; constructor; [exact H0 |].
    apply IH, Hstep; [exact H0 | lia].
Qed.

(** At the top of every pass of a run the counters are inside their
    buffers, [buf_cnt] is within the look-ahead size, and the chains hold
    window positions only. *)
Lemma run_in_range junk input fuel :
  1 <= num_POS_BITS ->
  Forall (fun s => state_in_range num_POS_BITS s /\ 0 < buf_cnt s)
         (compress_trace fuel (init_state junk input)).
Proof.
  intros HB.
  pose proof (compress_trace_invariant (state_in_range num_POS_BITS) fuel
                (init_state junk input) (init_state_in_range junk input HB)
                (fun s Hs Hp => encode_step_in_range s HB Hs Hp)) as Hall.
  assert (Hpos : forall f (st : state),
            Forall (fun s => 0 < buf_cnt s) (compress_trace f st)).
  { induction f as [|f IH]; intros st; cbn [compress_trace];
      destruct (buf_cnt st >? 0) eqn:Hb; constructor; [lia | apply IH]. }
  specialize (Hpos fuel (init_state junk input)).
  rewrite Forall_forall in *. intros s Hs. split; [apply Hall | apply Hpos]; exact Hs.
Qed.

(** ** The length and position fields *)

Lemma put_codes_fields (st : state) :
  0 <= num_POS_BITS ->
  MIN_LEN <= len (dpos st) ->
  exists lc ps,
    pOUT (put_codes st) = pOUT st ++ lc ++ ps
    /\ Z.of_nat (length ps) = num_POS_BITS
    /\ bits_value ps = pos (dpos st) mod 2 ^ num_POS_BITS
    /\ (0 <= pos (dpos st) < WSIZE -> bits_value ps = pos (dpos st))
    /\ (len (dpos st) = MIN_LEN -> lc = [])
    /\ (MIN_LEN < len (dpos st) ->
        exists bs,
          lc = repeat true (Z.to_nat (Z.shiftr (len (dpos st) - 5) 2)) ++ bs
          /\ length bs = 3%nat
          /\ bits_value bs = Z.shiftl ((len (dpos st) - 5) mod 4) 1
          /\ Z.of_nat (length lc) = Z.shiftr (len (dpos st) - 5) 2 + 3).
Proof.
  intros HB HL.
  exists (len_code_bits (len (dpos st))),
         (nbits (pos (dpos st)) (Z.to_nat num_POS_BITS)).
  split; [| split; [| split; [| split; [| split]]]].
  - rewrite put_codes_out.
    now replace (len (dpos st) >=? MIN_LEN) with true by lia.
  - rewrite nbits_length. lia.
  - rewrite bits_value_nbits. now rewrite Z2Nat.id by lia.
  - intros Hpos. rewrite bits_value_nbits, Z2Nat.id by lia.
    unfold win_BUFSIZE in Hpos. rewrite Z.shiftl_1_l in Hpos.
    now apply Z.mod_small.
  - intros Heq. unfold len_code_bits. now replace (len (dpos st) >? MIN_LEN)
      with false by lia.
  - intros Hgt. unfold MIN_LEN in *.
    set (code := len (dpos st) - 5).
    assert (Hc : 0 <= code) by (unfold code; lia).
    assert (Hbits : len_code_bits (len (dpos st))
                    = repeat true (Z.to_nat (Z.shiftr code 2))
                        ++ nbits (Z.shiftl (code mod 4) 1) 3).
    { unfold len_code_bits, MIN_LEN, MFOLD.
      replace (len (dpos st) >? 4) with true by lia.
      replace (len (dpos st) - (4 + 1)) with code by (unfold code; lia).
      change (Z.shiftl 1 2) with 4. change (Z.to_nat (2 + 1)) with 3%nat.
      now rewrite Z.rem_mod_nonneg by lia. }
    exists (nbits (Z.shiftl (code mod 4) 1) 3).
    split; [exact Hbits |]. split; [apply nbits_length |]. split.
    + rewrite bits_value_nbits. apply Z.mod_small.
      rewrite Z.shiftl_mul_pow2 by lia.
      assert (0 <= code mod 4 < 4) by (apply Z.mod_pos_bound; lia).
      change (2 ^ Z.of_nat 3) with 8. lia.
    + rewrite Hbits, length_app, repeat_length, nbits_length.
      assert (0 <= Z.shiftr code 2) by (apply Z.shiftr_nonneg; lia).
      lia.
Qed.

(** C2: for a match of length [L >= MIN_LEN] handed to [put_codes], the
    position is written in exactly [num_POS_BITS] bits, which denote it when
    it is a window position; for [L > MIN_LEN], with [code = L - 5], they
    come after [code >> 2] one-bits and exactly 3 bits whose value is
    [(code mod 4) << 1], which makes [(code >> 2) + 3] bits of length code.
    In a run, every position [search] returns is a window position. *)
Theorem C2_length_and_position_fields :
  12 <= num_POS_BITS <= 20 ->
  (forall st : state,
     MIN_LEN <= len (dpos st) ->
     exists lc ps,
       pOUT (put_codes st) = pOUT st ++ lc ++ ps
       /\ Z.of_nat (length ps) = num_POS_BITS
       /\ bits_value ps = pos (dpos st) mod 2 ^ num_POS_BITS
       /\ (0 <= pos (dpos st) < WSIZE -> bits_value ps = pos (dpos st))
       /\ (len (dpos st) = MIN_LEN -> lc = [])
       /\ (MIN_LEN < len (dpos st) ->
           exists bs,
             lc = repeat true (Z.to_nat (Z.shiftr (len (dpos st) - 5) 2)) ++ bs
             /\ length bs = 3%nat
             /\ bits_value bs = Z.shiftl ((len (dpos st) - 5) mod 4) 1
             /\ Z.of_nat (length lc) = Z.shiftr (len (dpos st) - 5) 2 + 3))
  /\ (forall junk input fuel,
        Forall (fun s => 0 <= pos (search s) < WSIZE)
               (compress_trace fuel (init_state junk input))).
Proof.
  intros HB. split.
  - intros st HL. apply put_codes_fields; [lia | exact HL].
  - intros junk input fuel.
    pose proof (run_in_range junk input fuel ltac:(lia)) as Hrun.
    rewrite Forall_forall in *. intros s Hs.
    destruct (Hrun s Hs) as ((_ & _ & Ht) & _).
    apply search_pos; [lia | exact Ht].
Qed.

(** C5: with [k0 = (win_cnt - 3) mod W] and [L] the length the step slides
    by, [put_codes] leaves the window and the hash chains that result from
    deleting the [L + 3] positions [k0 .. k0+L+2] (mod [W]) under the hashes
    of the old window, then copying the [L] look-ahead bytes to the cells
    [win_cnt .. win_cnt+L-1] (mod [W]), then inserting the same [L + 3]
    positions under the hashes of the new window; so does every step of a
    run. *)
Theorem C5_slide_order :
  12 <= num_POS_BITS <= 20 ->
  (forall st : state,
     0 <= win_cnt st < WSIZE ->
     0 <= len (dpos st) <= PSIZE ->
     slide_as_specified num_POS_BITS st (put_codes st))
  /\ (forall junk input fuel,
        Forall (fun s => slide_as_specified num_POS_BITS
                           (put_prefix (with_dpos s (search s)))
                           (encode_step s))
               (compress_trace fuel (init_state junk input))).
Proof.
  intros HB.
  assert (HP : 0 < PSIZE) by (apply pat_BUFSIZE_pos; lia).
  pose proof (pat_BUFSIZE_half ltac:(lia)) as HWP.
  assert (HW : 4096 <= WSIZE).
  { rewrite win_BUFSIZE_pow by lia. change 4096 with (2 ^ 12).
    apply Z.pow_le_mono_r; lia. }
  assert (Hone : forall st : state,
            0 <= win_cnt st < WSIZE -> 0 <= len (dpos st) <= PSIZE ->
            slide_as_specified num_POS_BITS st (put_codes st)).
  { intros st Hwc HL. unfold slide_as_specified.
    set (st1 := put_pos_or_byte (put_len st)).
    assert (Hd : len (dpos st1)
                 = if len (dpos st) >=? MIN_LEN then len (dpos st) else 1).
    { unfold st1. now rewrite put_pos_or_byte_len, put_len_dpos. }
    destruct (put_pos_or_byte_frame (put_len st))
      as (Hw1 & Hp1 & Ht1 & Hwc1 & Hpc1 & _ & _).
    destruct (put_len_frame st) as (Hw0 & Ht0 & Hwc0 & _ & _).
    destruct (put_len_input st) as (Hp0 & Hpc0).
    fold st1 in Hw1, Hp1, Ht1, Hwc1, Hpc1.
    assert (HL1 : 0 <= len (dpos st1) <= WSIZE).
    { rewrite Hd. unfold MIN_LEN. destruct (len (dpos st) >=? 4); lia. }
    assert (Hwc' : 0 <= win_cnt st1 < WSIZE) by (rewrite Hwc1, Hwc0; lia).
    pose proof (slide_refines st1 ltac:(lia) ltac:(lia) Hwc' HL1) as Hs.
    unfold slide_spec in Hs.
    rewrite Hw1, Hp1, Ht1, Hwc1, Hpc1, Hw0, Hp0, Ht0, Hwc0, Hpc0 in Hs.
    injection Hs as Hsw Hst.
    change (dpos (put_codes st)) with (dpos st1).
    split; [exact Hd |]. split.
    - unfold slide_positions_spec. rewrite length_map, length_seqZ. reflexivity.
    - split; [exact Hsw | exact Hst]. }
  split; [exact Hone |].
  intros junk input fuel.
  pose proof (run_in_range junk input fuel ltac:(lia)) as Hrun.
  rewrite Forall_forall in *. intros s Hs.
  destruct (Hrun s Hs) as (((Hwc & _) & Hb & _) & Hpos).
  unfold encode_step. apply Hone.
  - unfold put_prefix. repeat case_match; exact Hwc.
  - rewrite put_prefix_dpos. cbn [dpos with_dpos].
    destruct (search_len s) as [H0 H1]. specialize (H1 Hpos). lia.
Qed.

End EncoderFacts.

(** ** Five zero bytes, 17 position bits *)

Section FiveZeroBytes.

Context {fgk_tree : Type}.
Variable fgk_init_first_node : fgk_tree.
Variable fgk_encode_symbol : fgk_tree -> Z -> list bool * fgk_tree.
Variable junk : gmap Z Z.

Local Abbreviation st0 :=
  (init_state fgk_init_first_node 17 junk five_zero_bytes).

Lemma st0_window y : rd (win_buf st0) y = 0.
Proof.
  cbn [win_buf init_state]. apply memset_rd.
  unfold rd. now rewrite lookup_empty.
Qed.

Lemma st0_counters :
  buf_cnt st0 = 5 /\ pat_cnt st0 = 0 /\ gIN st0 = [] /\ pOUT st0 = [].
Proof.
  cbn [buf_cnt pat_cnt gIN pOUT init_state].
  destruct (fread_count junk 0 (Z.to_nat (pat_BUFSIZE 17)) five_zero_bytes)
    as [Hc Hg].
  rewrite Hc. split; [| split; [reflexivity | split; [| reflexivity]]].
  - change (pat_BUFSIZE 17) with 65536. cbn [length five_zero_bytes]. lia.
  - apply length_zero_iff_nil. rewrite Hg.
    change (pat_BUFSIZE 17) with 65536. cbn [length five_zero_bytes]. lia.
Qed.

Lemma st0_pattern t : 0 <= t < 5 -> rd (pattern st0) (Z.land t (pat_MASK 17)) = 0.
Proof.
  intros Ht. rewrite land_pat_MASK by lia.
  change (pat_BUFSIZE 17) with 65536. rewrite Z.mod_small by lia.
  cbn [pattern init_state].
  replace t with (0 + Z.of_nat (Z.to_nat t)) at 1 by lia.
  rewrite fread_rd.
  - assert (Hk : (Z.to_nat t < 5)%nat) by lia.
    destruct (Z.to_nat t) as [|[|[|[|[|k]]]]]; try reflexivity. lia.
  - cbn [length five_zero_bytes]. lia.
  - change (pat_BUFSIZE 17) with 65536. cbn [length five_zero_bytes]. lia.
Qed.

Lemma st0_head :
  rd (lzhash (tab st0))
     (hash (hash_SHIFT 17) (pattern st0) (pat_cnt st0) (pat_MASK 17)
           (win_MASK 17))
  = 131071.
Proof.
  assert (Hh : hash (hash_SHIFT 17) (pattern st0) (pat_cnt st0) (pat_MASK 17)
                    (win_MASK 17) = 0).
  { destruct st0_counters as (_ & -> & _). unfold hash.
    change (0 + 1) with 1. change (0 + 2) with 2. change (0 + 3) with 3.
    rewrite !st0_pattern by lia.
    now rewrite !Z.shiftl_0_l, !Z.lxor_0_l, Z.land_0_l. }
  rewrite Hh. cbn [tab init_state].
  rewrite init_list_head.
  - change (win_BUFSIZE 17) with 131072. lia.
  - intros y. apply memset_rd. unfold rd. now rewrite lookup_empty.
  - change (win_BUFSIZE 17) with 131072. lia.
Qed.

Lemma st0_search :
  search_log 17 st0 = (mkDpos 131071 5, [mkVisit 131071 (Some 5)]).
Proof.
  destruct st0_counters as (Hb & Hp & _).
  pose proof (search_log_first_full 17 st0) as H. cbv zeta in H.
  rewrite st0_head, Hb in H.
  apply H; [lia | discriminate |].
  rewrite <- Hb.
  apply candidate_zero; [lia | apply st0_window | | lia].
  intros t Ht. rewrite Hp. apply st0_pattern. lia.
Qed.

(** C8: with 17 position bits (the value [main] uses when no option is
    given) and the five bytes 00 00 00 00 00 as input, whatever the
    look-ahead buffer held when allocated, the first step finds
    a match of length 5 in the window of zeros, at the head of the chain
    (position 131071), and writes the bit 1, the length code 000 of
    [L - 5 = 0] with no one-bit before it, and the position in 17 bits; it
    leaves [buf_cnt = 0], so it is the only step. *)
Theorem C8_five_zero_bytes :
  parse_bits [prog; infile; outfile] = Some 17
  /\ search 17 st0 = mkDpos 131071 5
  /\ snd (search_log 17 st0) = [mkVisit 131071 (Some 5)]
  /\ pOUT (encode_step fgk_encode_symbol 17 st0)
     = [true] ++ [false; false; false] ++ nbits 131071 17
  /\ folded_unary_spec (5 - 5) = [false; false; false]
  /\ length (nbits 131071 17) = 17%nat
  /\ bits_value (nbits 131071 17) = 131071
  /\ buf_cnt (encode_step fgk_encode_symbol 17 st0) = 0
  /\ compress_trace fgk_encode_symbol 17 5 st0 = [st0].
Proof.
  assert (Hs : search 17 st0 = mkDpos 131071 5)
    by (unfold search; now rewrite st0_search).
  destruct st0_counters as (Hb & Hp & Hg & Ho).
  assert (Hend : buf_cnt (encode_step fgk_encode_symbol 17 st0) = 0).
  { destruct (encode_step_progress fgk_encode_symbol 17 st0 ltac:(lia))
      as (HL & _ & _ & Hbc).
    rewrite Hbc, HL, Hs, Hg, Hb. reflexivity. }
  split; [reflexivity |].
  split; [exact Hs |].
  split; [now rewrite st0_search |].
  split.
  { rewrite encode_step_out_match by (rewrite Hs; cbn [len]; unfold MIN_LEN; lia).
    rewrite Hs, Ho. reflexivity. }
  split; [reflexivity |].
  split; [apply nbits_length |].
  split; [now rewrite bits_value_nbits |].
  split; [exact Hend |].
  cbn [compress_trace]. rewrite Hb, Hend. reflexivity.
Qed.

End FiveZeroBytes.

(** ** The exit status *)

Section MainFacts.

Context {fgk_tree : Type}.
Variable fgk_init_first_node : fgk_tree.
Variable fgk_encode_symbol : fgk_tree -> Z -> list bool * fgk_tree.

(** The window exponent [main] hands to the encoder is in 12..20. *)
Lemma parse_bits_range args b : parse_bits args = Some b -> 12 <= b <= 20.
Proof.
  unfold parse_bits, NUM_POS_BITS.
  destruct (Z.of_nat (length args) =? 4); [| intros [= <-]; lia].
  destruct (nth 1 args EmptyString) as [|c rest]; [discriminate |].
  destruct (Ascii.eqb c "-"); [| discriminate].
  destruct (u32 (atoi rest) =? 0); [discriminate |].
  destruct (u32 (atoi rest) <? 12) eqn:E1; [intros [= <-]; lia |].
  destruct (u32 (atoi rest) >? 20) eqn:E2; intros [= <-]; lia.
Qed.

(** When the command line is well formed, both files open and the three
    allocations succeed, [main] compresses the input to its end. *)
Lemma main_completes (e : environment) bits i o input :
  parse_bits (argv e) = Some bits ->
  parse_files (argv e) = Some (i, o) ->
  fopen_rb e (nth i (argv e) EmptyString) = Some input ->
  fopen_wb e (nth o (argv e) EmptyString) = true ->
  malloc_win_buf e = true -> malloc_pattern e = true ->
  alloc_lzhash_ok e = true ->
  exists out,
    main fgk_init_first_node fgk_encode_symbol e = mkOutcome 0 (Complete (Some out)).
Proof.
  intros Hb Hf Hi Ho Hw Hp Hh. unfold main.
  rewrite Hb, Hf, Hi, Ho, Hw, Hp, Hh. cbn [negb].
  destruct (init_state_measure fgk_init_first_node bits (pattern_junk e) input)
    as [H0 Hm].
  destruct (compress_loop_ends fgk_encode_symbol bits (length input) _ H0 Hm)
    as (st' & Hrun & _).
  exists (pOUT st'). unfold compress. now rewrite Hrun.
Qed.

(** C3, as the code has it: [main] ends with exit status 0 on every path,
    the failures included: [usage()] calls [exit (0)], a file that does not
    open returns 0, and a failed allocation jumps to the [return 0] at
    [halt_prog].  A wrong argument count, a first argument without [-] and
    an option whose number reads as 0 all take the [usage()] path. *)
Theorem C3_exit_status_always_zero (e : environment) :
  exit_status (main fgk_init_first_node fgk_encode_symbol e) = 0
  /\ (parse_bits (argv e) = None \/ parse_files (argv e) = None <->
      said (main fgk_init_first_node fgk_encode_symbol e) = UsageShown)
  /\ (length (argv e) <> 3%nat -> length (argv e) <> 4%nat ->
      said (main fgk_init_first_node fgk_encode_symbol e) = UsageShown).
Proof.
  assert (Hfiles : length (argv e) <> 3%nat -> length (argv e) <> 4%nat ->
                   parse_files (argv e) = None).
  { intros H3 H4. unfold parse_files.
    replace (Z.of_nat (length (argv e)) =? 3) with false by lia.
    now replace (Z.of_nat (length (argv e)) =? 4) with false by lia. }
  unfold main.
  destruct (parse_bits (argv e)) as [bits|].
  - destruct (parse_files (argv e)) as [[i o]|].
    + destruct (fopen_rb e _); cbn [exit_status said];
        repeat (match goal with
                | |- context [if negb ?b then _ else _] => destruct b
                end; cbn [negb exit_status said]);
        (split; [reflexivity |]);
        (split; [split; [intros [H | H]; discriminate H | discriminate] |]);
        intros H3 H4; discriminate (Hfiles H3 H4).
    + cbn. split; [reflexivity |]. split; [| reflexivity].
      split; [reflexivity | intros _; now right].
  - cbn. split; [reflexivity |]. split; [| reflexivity].
    split; [reflexivity | intros _; now left].
Qed.

End MainFacts.

(** ** Sample runs *)

(** C3, counterexample: the exit status is not nonzero on failure.  These
    runs are failures (a wrong argument count, an option that is no number,
    an input file that does not open, an output file that does not open, a
    window that is not allocated), and each ends with exit status 0. *)
Lemma C3_failures_exit_zero :
  let run := main tt fixed8 in
  let e1 := sample_env [prog; infile] (Some []) true true true true in
  let e2 := sample_env [prog; "-x"%string; infile; outfile] (Some [])
                       true true true true in
  let e3 := sample_env [prog; infile; outfile] None true true true true in
  let e4 := sample_env [prog; infile; outfile] (Some []) false true true true in
  let e5 := sample_env [prog; infile; outfile] (Some []) true false true true in
  (said (run e1) = UsageShown /\ exit_status (run e1) = 0)
  /\ (said (run e2) = UsageShown /\ exit_status (run e2) = 0)
  /\ (said (run e3) = ErrorOpeningInput /\ exit_status (run e3) = 0)
  /\ (said (run e4) = ErrorOpeningOutput /\ exit_status (run e4) = 0)
  /\ (said (run e5) = ErrorAllocWindow /\ exit_status (run e5) = 0)
  /\ is_failure UsageShown = true
  /\ is_failure ErrorOpeningInput = true
  /\ is_failure ErrorOpeningOutput = true
  /\ is_failure ErrorAllocWindow = true.
Proof. cbv zeta. repeat split. Qed.

(** C2, witness: the fields written for the match of 11 zero bytes, with
    12 position bits: [code = 6], one one-bit, three bits of value 4, the
    position in 12 bits. *)
Lemma C2_fields_witness :
  let st := sample_put_codes_state eleven_zero_bytes in
  (len (dpos st) = 11 /\ pos (dpos st) = 4095)
  /\ exists lc ps,
       pOUT (put_codes fixed8 12 st) = pOUT st ++ lc ++ ps
       /\ Z.of_nat (length ps) = 12
       /\ bits_value ps = pos (dpos st) mod 2 ^ 12
       /\ (0 <= pos (dpos st) < win_BUFSIZE 12 -> bits_value ps = pos (dpos st))
       /\ (len (dpos st) = MIN_LEN -> lc = [])
       /\ (MIN_LEN < len (dpos st) ->
           exists bs,
             lc = repeat true (Z.to_nat (Z.shiftr (len (dpos st) - 5) 2)) ++ bs
             /\ length bs = 3%nat
             /\ bits_value bs = Z.shiftl ((len (dpos st) - 5) mod 4) 1
             /\ Z.of_nat (length lc) = Z.shiftr (len (dpos st) - 5) 2 + 3).
Proof.
  cbv zeta.
  assert (HL : len (dpos (sample_put_codes_state eleven_zero_bytes)) = 11
               /\ pos (dpos (sample_put_codes_state eleven_zero_bytes)) = 4095)
    by (vm_compute; split; reflexivity).
  split; [exact HL |].
  assert (HB : 12 <= 12 <= 20) by lia.
  apply (proj1 (C2_length_and_position_fields tt fixed8 12 HB)).
  destruct HL as [-> _]. unfold MIN_LEN. lia.
Defined.

(** C5, witness: the slide of the first step on five zero bytes, with 12
    position bits. *)
Lemma C5_slide_witness :
  let st := sample_put_codes_state five_zero_bytes in
  (win_cnt st = 0 /\ len (dpos st) = 5)
  /\ slide_as_specified 12 st (put_codes fixed8 12 st).
Proof.
  cbv zeta.
  assert (H0 : win_cnt (sample_put_codes_state five_zero_bytes) = 0
               /\ len (dpos (sample_put_codes_state five_zero_bytes)) = 5)
    by (vm_compute; split; reflexivity).
  split; [exact H0 |].
  destruct H0 as [Hw Hl].
  assert (HB : 12 <= 12 <= 20) by lia.
  apply (proj1 (C5_slide_order tt fixed8 12 HB)).
  - rewrite Hw. change (win_BUFSIZE 12) with 4096. lia.
  - rewrite Hl. change (pat_BUFSIZE 12) with 2048. lia.
Defined.

(** C6, witness: the counters after the first step on five zero bytes,
    with 12 position bits. *)
Lemma C6_counters_witness :
  let st := sample_put_codes_state five_zero_bytes in
  (win_cnt (put_codes fixed8 12 st) = 5 /\ pat_cnt (put_codes fixed8 12 st) = 5)
  /\ counters_in_range 12 (put_codes fixed8 12 st).
Proof.
  cbv zeta. split; [vm_compute; split; reflexivity |].
  assert (HB : 12 <= 12 <= 20) by lia.
  exact (proj1 (proj2 (proj2 (C6_counters_in_range tt fixed8 12 HB))) _).
Defined.

(** C7, witness: the only step on the one byte 41, with 12 position bits. *)
Lemma C7_literal_witness :
  let st := sample_state [x41] in
  buf_cnt st = 1
  /\ search_log 12 st = (mkDpos 0 0, [])
  /\ len (search 12 st) = 0
  /\ pOUT (encode_step fixed8 12 st)
     = pOUT st ++ [false; false]
         ++ fst (fixed8 (fgk st) (mtf_rank (mtf_list st)
                                           (rd (pattern st) (pat_cnt st))))
  /\ len (dpos (encode_step fixed8 12 st)) = 1.
Proof.
  cbv zeta.
  assert (Hb : buf_cnt (sample_state [x41]) = 1) by (vm_compute; reflexivity).
  split; [exact Hb |].
  exact (C7_single_byte_literal fixed8 12 (sample_state [x41]) Hb).
Defined.

(** * More of the encoder *)

Section RunFacts.

Context {fgk_tree : Type}.
Variable fgk_init_first_node : fgk_tree.
Variable fgk_encode_symbol : fgk_tree -> Z -> list bool * fgk_tree.
Variable num_POS_BITS : Z.

Local Abbreviation WSIZE := (win_BUFSIZE num_POS_BITS).
Local Abbreviation WMASK := (win_MASK num_POS_BITS).
Local Abbreviation PSIZE := (pat_BUFSIZE num_POS_BITS).
Local Abbreviation PMASK := (pat_MASK num_POS_BITS).
Local Abbreviation HSHIFT := (hash_SHIFT num_POS_BITS).
Local Abbreviation state := (@state fgk_tree).
Local Abbreviation put_codes := (put_codes fgk_encode_symbol num_POS_BITS).
Local Abbreviation put_pos_or_byte :=
  (put_pos_or_byte fgk_encode_symbol num_POS_BITS).
Local Abbreviation encode_step := (encode_step fgk_encode_symbol num_POS_BITS).
Local Abbreviation compress_loop :=
  (compress_loop fgk_encode_symbol num_POS_BITS).
Local Abbreviation compress_trace :=
  (compress_trace fgk_encode_symbol num_POS_BITS).
Local Abbreviation init_state :=
  (init_state fgk_init_first_node num_POS_BITS).
Local Abbreviation search := (search num_POS_BITS).
Local Abbreviation search_log := (search_log num_POS_BITS).
Local Abbreviation lookahead_byte := (lookahead_byte num_POS_BITS).
Local Abbreviation window_byte := (window_byte num_POS_BITS).
Local Abbreviation matches_at := (matches_at num_POS_BITS).
Local Abbreviation buffers_follow := (buffers_follow num_POS_BITS).

(** ** What [search] returns *)

Lemma land_pat_MASK_range x :
  1 <= num_POS_BITS -> 0 <= Z.land x PMASK < PSIZE.
Proof.
  intros HB. rewrite land_pat_MASK by exact HB.
  apply Z.mod_pos_bound. now apply pat_BUFSIZE_pos.
Qed.

(** [if (j-- == 0) j = pat_BUFSIZE-1] steps back around the buffer. *)
Lemma wrap_back j :
  0 < PSIZE -> 0 <= j < PSIZE ->
  (if j =? 0 then PSIZE - 1 else j - 1) = (j - 1) mod PSIZE.
Proof.
  intros HP Hj. destruct (j =? 0) eqn:E.
  - apply (Z.mod_unique _ _ (-1)); lia.
  - symmetry. apply Z.mod_small. lia.
Qed.

Lemma context_match_true w p i j k :
  0 < PSIZE -> 0 <= j < PSIZE ->
  context_match num_POS_BITS w p i j k = true ->
  forall t, 0 <= t <= Z.of_nat k ->
    rd p ((j - (Z.of_nat k - t)) mod PSIZE) = rd w (Z.land (i + t) WMASK).
Proof.
  intros HP. revert j. induction k as [|k IH]; intros j Hj H t Ht;
    cbn [context_match] in H;
    destruct (rd p j =? rd w (Z.land (i + _) WMASK)) eqn:E;
    cbn [negb] in H; try discriminate.
  - replace t with 0 by lia. change (Z.of_nat 0) with 0 in *.
    rewrite Z.sub_0_r, Z.mod_small by lia. lia.
  - destruct (Z.eq_dec t (Z.of_nat (S k))) as [-> | Hne].
    + rewrite Z.sub_diag, Z.sub_0_r, Z.mod_small by lia. lia.
    + rewrite wrap_back in H by assumption.
      specialize (IH _ ltac:(apply Z.mod_pos_bound; lia) H t ltac:(lia)).
      rewrite <- IH. f_equal.
      rewrite Zminus_mod_idemp_l. f_equal. lia.
Qed.

Lemma context_match_false w p i j k :
  0 < PSIZE -> 0 <= j < PSIZE ->
  context_match num_POS_BITS w p i j k = false ->
  exists t, 0 <= t <= Z.of_nat k
            /\ rd p ((j - (Z.of_nat k - t)) mod PSIZE)
               <> rd w (Z.land (i + t) WMASK).
Proof.
  intros HP. revert j. induction k as [|k IH]; intros j Hj H;
    cbn [context_match] in H;
    destruct (rd p j =? rd w (Z.land (i + _) WMASK)) eqn:E;
    cbn [negb] in H; try discriminate.
  - exists 0. change (Z.of_nat 0) with 0 in *.
    rewrite Z.sub_0_r, Z.mod_small by lia. split; [lia | lia].
  - rewrite wrap_back in H by assumption.
    destruct (IH _ ltac:(apply Z.mod_pos_bound; lia) H) as (t & Ht & Hne).
    exists t. split; [lia |].
    rewrite Zminus_mod_idemp_l in Hne.
    now replace (j - (Z.of_nat (S k) - t)) with (j - 1 - (Z.of_nat k - t)) by lia.
  - exists (Z.of_nat (S k)).
    rewrite Z.sub_diag, Z.sub_0_r, Z.mod_small by lia. split; [lia | lia].
Qed.

Lemma suffix_match_sound fuel w p cnt i j k :
  k < cnt ->
  forall t, k <= t < suffix_match num_POS_BITS fuel w p cnt i j k ->
    rd p (Z.land (j + (t - k)) PMASK) = rd w (Z.land (i + t) WMASK).
Proof.
  revert j k. induction fuel as [|f IH]; intros j k Hk t Ht;
    cbn [suffix_match] in Ht; [lia |].
  destruct (rd p (Z.land j PMASK) =? rd w (Z.land (i + k) WMASK)) eqn:E;
    [| lia].
  destruct (Z.eq_dec t k) as [-> | Hne].
  - rewrite Z.sub_diag, Z.add_0_r. lia.
  - destruct (k + 1 <? cnt) eqn:E1; [| lia].
    specialize (IH (j + 1) (k + 1) ltac:(lia) t ltac:(lia)).
    rewrite <- IH. do 2 f_equal. lia.
Qed.

Lemma suffix_match_stop fuel w p cnt i j k :
  k < cnt -> (Z.to_nat (cnt - k) <= fuel)%nat ->
  let r := suffix_match num_POS_BITS fuel w p cnt i j k in
  r < cnt ->
  rd p (Z.land (j + (r - k)) PMASK) <> rd w (Z.land (i + r) WMASK).
Proof.
  revert j k. induction fuel as [|f IH]; intros j k Hk Hf; cbv zeta;
    cbn [suffix_match]; [lia |].
  destruct (rd p (Z.land j PMASK) =? rd w (Z.land (i + k) WMASK)) eqn:E.
  - destruct (k + 1 <? cnt) eqn:E1; [| lia].
    intros Hr.
    specialize (IH (j + 1) (k + 1) ltac:(lia) ltac:(lia) Hr).
    intros Heq. apply IH. rewrite <- Heq. do 2 f_equal. lia.
  - intros _. rewrite Z.sub_diag, Z.add_0_r. lia.
Qed.

Lemma lookahead_byte_mod (st : state) t :
  1 <= num_POS_BITS ->
  lookahead_byte st t = rd (pattern st) ((pat_cnt st + t) mod PSIZE).
Proof. intros HB. unfold lookahead_byte. now rewrite land_pat_MASK. Qed.

(** An accepted node matches the look-ahead on the whole length recorded
    for it. *)
Lemma candidate_sound (st : state) i d k :
  1 <= num_POS_BITS -> 0 <= len d ->
  candidate num_POS_BITS st i d = Some k ->
  matches_at st i k.
Proof.
  intros HB Hd H t Ht.
  pose proof (pat_BUFSIZE_pos _ HB) as HP.
  unfold candidate in H.
  destruct (context_match _ _ _ _ _ _) eqn:Hctx; [| discriminate].
  injection H as Hk.
  destruct (Z_le_gt_dec t (len d)) as [Hle | Hgt].
  - pose proof (context_match_true _ _ _ _ _ HP
                  (land_pat_MASK_range (pat_cnt st + len d) HB) Hctx t
                  ltac:(lia)) as Hm.
    rewrite Z2Nat.id in Hm by lia.
    rewrite land_pat_MASK, Zminus_mod_idemp_l in Hm by exact HB.
    rewrite lookahead_byte_mod by exact HB. unfold window_byte.
    rewrite <- Hm. do 2 f_equal. lia.
  - destruct (len d + 1 <? buf_cnt st) eqn:E; [| lia].
    pose proof (suffix_match_sound (Z.to_nat (buf_cnt st - (len d + 1)))
                  (win_buf st) (pattern st) (buf_cnt st) i
                  (Z.land (pat_cnt st + len d + 1) PMASK) (len d + 1)
                  ltac:(lia) t) as Hm.
    rewrite Hk in Hm. specialize (Hm ltac:(lia)).
    rewrite land_pat_MASK_add in Hm by exact HB.
    unfold lookahead_byte, window_byte. rewrite <- Hm. do 2 f_equal. lia.
Qed.

(** A node accepted with less than [buf_cnt] bytes differs from the
    look-ahead at the next byte. *)
Lemma candidate_stop (st : state) i d k :
  1 <= num_POS_BITS -> 0 <= len d ->
  candidate num_POS_BITS st i d = Some k ->
  k < buf_cnt st ->
  lookahead_byte st k <> window_byte st i k.
Proof.
  intros HB Hd H Hk.
  unfold candidate in H.
  destruct (context_match _ _ _ _ _ _) eqn:Hctx; [| discriminate].
  injection H as Hk'.
  destruct (len d + 1 <? buf_cnt st) eqn:E; [| lia].
  pose proof (suffix_match_stop (Z.to_nat (buf_cnt st - (len d + 1)))
                (win_buf st) (pattern st) (buf_cnt st) i
                (Z.land (pat_cnt st + len d + 1) PMASK) (len d + 1)
                ltac:(lia) ltac:(lia)) as Hs.
  cbv zeta in Hs. rewrite Hk' in Hs. specialize (Hs Hk).
  rewrite land_pat_MASK_add in Hs by exact HB.
  unfold lookahead_byte, window_byte. intros Heq. apply Hs.
  rewrite <- Heq. do 2 f_equal. lia.
Qed.

(** A skipped node does not match the look-ahead on one byte more than the
    best match so far. *)
Lemma candidate_none (st : state) i d :
  1 <= num_POS_BITS -> 0 <= len d ->
  candidate num_POS_BITS st i d = None ->
  ~ matches_at st i (len d + 1).
Proof.
  intros HB Hd H Hm.
  pose proof (pat_BUFSIZE_pos _ HB) as HP.
  unfold candidate in H.
  destruct (context_match _ _ _ _ _ _) eqn:Hctx; [discriminate |].
  destruct (context_match_false _ _ _ _ _ HP
              (land_pat_MASK_range (pat_cnt st + len d) HB) Hctx)
    as (t & Ht & Hne).
  rewrite Z2Nat.id in Ht, Hne by lia.
  rewrite land_pat_MASK, Zminus_mod_idemp_l in Hne by exact HB.
  specialize (Hm t ltac:(lia)).
  rewrite lookahead_byte_mod in Hm by exact HB. unfold window_byte in Hm.
  apply Hne. rewrite <- Hm. do 2 f_equal. lia.
Qed.

Lemma walk_sound fuel (st : state) i m n d :
  1 <= num_POS_BITS -> 0 <= len d < buf_cnt st ->
  matches_at st (pos d) (len d) ->
  matches_at st (pos (fst (walk num_POS_BITS fuel st i m n d)))
             (len (fst (walk num_POS_BITS fuel st i m n d))).
Proof.
  intros HB. revert i m n d. induction fuel as [|f IH]; intros i m n d Hd Hm.
  - exact Hm.
  - cbn [walk]. destruct (i =? LZ_NULL); [exact Hm |].
    destruct (candidate num_POS_BITS st i d) as [k|] eqn:Hc.
    + pose proof (candidate_sound st i d k HB ltac:(lia) Hc) as Hk.
      pose proof (candidate_range _ _ _ _ _ Hc ltac:(lia)) as Hr.
      destruct ((k =? buf_cnt st) || (n + 1 =? NMATCH)) eqn:Hb; [exact Hk |].
      destruct (m + 1 =? FAR_LIST); [exact Hk |].
      apply orb_false_iff in Hb as [Hb1 Hb2].
      cbn [fst]. apply IH; [cbn [len]; lia | exact Hk].
    + destruct (m + 1 =? FAR_LIST); [exact Hm |].
      cbn [fst]. apply IH; assumption.
Qed.

(** No node the walk looked at matches the look-ahead on more bytes than
    the match the walk returns. *)
Lemma walk_longest fuel (st : state) i m n d v q :
  1 <= num_POS_BITS -> 0 <= len d < buf_cnt st ->
  In v (snd (walk num_POS_BITS fuel st i m n d)) ->
  len (fst (walk num_POS_BITS fuel st i m n d)) < q <= buf_cnt st ->
  ~ matches_at st (v_node v) q.
Proof.
  intros HB. revert i m n d. induction fuel as [|f IH]; intros i m n d Hd.
  - intros [].
  - pose proof (walk_len num_POS_BITS f st (rd (lznext (tab st)) i)) as Hlen.
    cbn [walk]. destruct (i =? LZ_NULL); [intros [] |].
    destruct (candidate num_POS_BITS st i d) as [k|] eqn:Hc.
    + pose proof (candidate_range _ _ _ _ _ Hc ltac:(lia)) as Hr.
      assert (Hfull : forall q', k < q' <= buf_cnt st ->
                        ~ matches_at st i q').
      { intros q' Hq' Hm.
        apply (candidate_stop st i d k HB ltac:(lia) Hc ltac:(lia)).
        apply Hm. lia. }
      destruct ((k =? buf_cnt st) || (n + 1 =? NMATCH)) eqn:Hb.
      { cbn [fst snd len]. intros [<- | []] Hq. now apply Hfull. }
      destruct (m + 1 =? FAR_LIST).
      { cbn [fst snd len]. intros [<- | []] Hq. now apply Hfull. }
      apply orb_false_iff in Hb as [Hb1 Hb2].
      cbn [fst snd]. intros [<- | Hin] Hq.
      * cbn [v_node]. apply Hfull.
        specialize (Hlen (m + 1) (n + 1) (mkDpos i k) ltac:(cbn [len]; lia)).
        cbn [len] in Hlen. lia.
      * eapply IH; [| exact Hin | exact Hq]. cbn [len]. lia.
    + pose proof (candidate_none st i d HB ltac:(lia) Hc) as Hnone.
      assert (Hskip : forall q', len d < q' -> ~ matches_at st i q').
      { intros q' Hq' Hm. apply Hnone. intros t Ht. apply Hm. lia. }
      destruct (m + 1 =? FAR_LIST).
      { cbn [fst snd]. intros [<- | []] Hq. apply Hskip. lia. }
      cbn [fst snd]. intros [<- | Hin] Hq.
      * cbn [v_node]. apply Hskip.
        specialize (Hlen (m + 1) n d ltac:(lia)). lia.
      * eapply IH; [| exact Hin | exact Hq]. lia.
Qed.

(** ** The buffers against the input *)

Lemma input_byte_cons c g s :
  0 <= s -> input_byte (c :: g) (s + 1) = input_byte g s.
Proof.
  intros Hs. unfold input_byte.
  replace (Z.to_nat (s + 1)) with (S (Z.to_nat s)) by lia. reflexivity.
Qed.

Lemma input_byte_drop g k s :
  0 <= s -> input_byte (drop k g) s = input_byte g (Z.of_nat k + s).
Proof.
  intros Hs. unfold input_byte. rewrite lookup_drop.
  now replace (Z.to_nat (Z.of_nat k + s)) with (k + Z.to_nat s)%nat by lia.
Qed.

Lemma fread_rest buf i n g :
  snd (fread buf i n g) = drop (Nat.min n (length g)) g.
Proof.
  revert buf i g. induction n as [|n IH]; intros buf i g; cbn [fread].
  - reflexivity.
  - destruct g as [|c g]; [reflexivity |]. cbn [length Nat.min]. apply IH.
Qed.

Lemma get_bytes_rest n i pc p g :
  snd (get_bytes num_POS_BITS n i pc p g) = drop (Nat.min n (length g)) g.
Proof.
  revert i p g. induction n as [|n IH]; intros i p g; cbn [get_bytes].
  - reflexivity.
  - destruct g as [|c g]; cbn [gfgetc fst snd]; [reflexivity |].
    pose proof (byte_val_range c).
    replace (byte_val c =? EOF) with false by (unfold EOF; lia).
    cbn [negb length Nat.min]. apply IH.
Qed.

(** The refill leaves alone every cell that is not one of the first [got]
    from [pat_cnt + i] on. *)
Lemma get_bytes_miss n i pc p g x :
  (forall s, 0 <= s < Z.of_nat (Nat.min n (length g)) ->
     x <> Z.land (pc + (i + s)) PMASK) ->
  rd (snd (fst (get_bytes num_POS_BITS n i pc p g))) x = rd p x.
Proof.
  revert i p g. induction n as [|n IH]; intros i p g Hx; cbn [get_bytes].
  - reflexivity.
  - destruct g as [|c g]; cbn [gfgetc fst snd]; [reflexivity |].
    pose proof (byte_val_range c).
    replace (byte_val c =? EOF) with false by (unfold EOF; lia).
    cbn [negb]. cbn [length Nat.min] in Hx.
    rewrite IH.
    + rewrite rd_insert. rewrite decide_False; [reflexivity |].
      specialize (Hx 0 ltac:(lia)). rewrite Z.add_0_r in Hx. congruence.
    + intros s Hs. specialize (Hx (s + 1) ltac:(lia)).
      now replace (i + 1 + s) with (i + (s + 1)) by lia.
Qed.

(** It stores byte [s] of the unread input in cell [pat_cnt + i + s]. *)
Lemma get_bytes_hit n i pc p g s :
  1 <= num_POS_BITS ->
  Z.of_nat n <= PSIZE ->
  0 <= s < Z.of_nat (Nat.min n (length g)) ->
  rd (snd (fst (get_bytes num_POS_BITS n i pc p g)))
     (Z.land (pc + (i + s)) PMASK)
  = input_byte g s.
Proof.
  intros HB. pose proof (pat_BUFSIZE_pos _ HB) as HP.
  revert i p g s. induction n as [|n IH]; intros i p g s Hn Hs;
    [cbn in Hs; lia |].
  destruct g as [|c g]; [cbn in Hs; lia |].
  cbn [get_bytes gfgetc fst snd].
  pose proof (byte_val_range c).
  replace (byte_val c =? EOF) with false by (unfold EOF; lia).
  cbn [negb]. cbn [length Nat.min] in Hs.
  destruct (Z.eq_dec s 0) as [-> | Hne].
  - rewrite get_bytes_miss.
    + rewrite Z.add_0_r, rd_insert, decide_True by reflexivity. reflexivity.
    + intros s' Hs'. rewrite !land_pat_MASK by exact HB.
      replace (pc + (i + 0)) with (pc + i + 0) by lia.
      replace (pc + (i + 1 + s')) with (pc + i + (1 + s')) by lia.
      apply mod_add_inj; lia.
  - replace (i + s) with (i + 1 + (s - 1)) by lia.
    rewrite IH by lia.
    replace s with (s - 1 + 1) at 2 by lia.
    now rewrite input_byte_cons by lia.
Qed.

Lemma copy_loop_miss n p wc pc w x :
  (forall s, 0 <= s < Z.of_nat n -> x <> Z.land (wc + s) WMASK) ->
  rd (copy_loop num_POS_BITS n p wc pc w) x = rd w x.
Proof.
  revert w. induction n as [|n IH]; intros w Hx; cbn [copy_loop].
  - reflexivity.
  - rewrite IH by (intros s Hs; apply Hx; lia).
    rewrite rd_insert, decide_False; [reflexivity |].
    specialize (Hx (Z.of_nat n) ltac:(lia)). congruence.
Qed.

(** The copy puts look-ahead byte [s] in window cell [win_cnt + s]. *)
Lemma copy_loop_hit n p wc pc w s :
  0 <= num_POS_BITS ->
  Z.of_nat n <= WSIZE -> 0 <= s < Z.of_nat n ->
  rd (copy_loop num_POS_BITS n p wc pc w) (Z.land (wc + s) WMASK)
  = rd p (Z.land (pc + s) PMASK).
Proof.
  intros HB. pose proof (win_BUFSIZE_pos _ HB) as HW.
  revert w s. induction n as [|n IH]; intros w s Hn Hs; [lia |].
  cbn [copy_loop].
  destruct (Z.eq_dec s (Z.of_nat n)) as [-> | Hne].
  - rewrite copy_loop_miss.
    + now rewrite rd_insert, decide_True by reflexivity.
    + intros s' Hs'. rewrite !land_win_MASK by exact HB.
      intros Heq. symmetry in Heq. revert Heq. apply mod_add_inj; lia.
  - apply IH; lia.
Qed.

(** The buffers and counters a step leaves, from those it finds. *)
Lemma encode_step_fields (st : state) :
  let L := len (dpos (encode_step st)) in
  let r := get_bytes num_POS_BITS (Z.to_nat L) 0 (pat_cnt st) (pattern st)
                     (gIN st) in
  win_buf (encode_step st)
  = copy_loop num_POS_BITS (Z.to_nat L) (pattern st) (win_cnt st) (pat_cnt st)
              (win_buf st)
  /\ pattern (encode_step st) = snd (fst r)
  /\ gIN (encode_step st) = snd r
  /\ win_cnt (encode_step st) = Z.land (win_cnt st + L) WMASK
  /\ pat_cnt (encode_step st) = Z.land (pat_cnt st + L) PMASK
  /\ buf_cnt (encode_step st) = buf_cnt st - (L - fst (fst r)).
Proof.
  cbv zeta. unfold encode_step, put_codes.
  set (st0 := put_prefix (with_dpos st (search st))).
  set (st1 := put_pos_or_byte (put_len st0)).
  assert (H0 : win_buf st0 = win_buf st /\ pattern st0 = pattern st
               /\ win_cnt st0 = win_cnt st /\ pat_cnt st0 = pat_cnt st
               /\ buf_cnt st0 = buf_cnt st /\ gIN st0 = gIN st).
  { unfold st0, put_prefix. repeat case_match; repeat split. }
  destruct H0 as (Hw0 & Hp0 & Hwc0 & Hpc0 & Hb0 & Hg0).
  destruct (put_pos_or_byte_frame fgk_encode_symbol num_POS_BITS (put_len st0))
    as (Hw1 & Hp1 & _ & Hwc1 & Hpc1 & Hb1 & Hg1).
  destruct (put_len_frame st0) as (Hw2 & _ & Hwc2 & Hb2 & Hg2).
  destruct (put_len_input st0) as (Hp2 & Hpc2).
  fold st1 in Hw1, Hp1, Hwc1, Hpc1, Hb1, Hg1.
  change (dpos (refill num_POS_BITS (slide num_POS_BITS st1))) with (dpos st1).
  cbn [refill slide win_buf pattern gIN win_cnt pat_cnt buf_cnt
       with_counters with_input with_window dpos].
  rewrite Hw1, Hp1, Hwc1, Hpc1, Hb1, Hg1, Hw2, Hp2, Hwc2, Hpc2, Hb2, Hg2,
          Hw0, Hp0, Hwc0, Hpc0, Hb0, Hg0.
  repeat split.
Qed.

(** [fread] stores byte [k] of the input in cell [i + k], for the bytes it
    reads. *)
Lemma fread_cell g buf i n k :
  (k < Nat.min n (length g))%nat ->
  rd (fst (fst (fread buf i n g))) (i + Z.of_nat k)
  = input_byte g (Z.of_nat k).
Proof.
  assert (Hkeep : forall g buf i n x, x < i ->
            rd (fst (fst (fread buf i n g))) x = rd buf x).
  { clear. induction g as [|c g IH]; intros buf i n x Hx.
    - now destruct n.
    - destruct n as [|n]; [reflexivity |]. cbn [fread].
      rewrite IH by lia. rewrite rd_insert.
      now rewrite decide_False by lia. }
  revert buf i n k. induction g as [|c g IH]; intros buf i n k Hk.
  - cbn in Hk. lia.
  - destruct n as [|n]; [cbn in Hk; lia |]. cbn [fread].
    cbn [length Nat.min] in Hk.
    destruct k as [|k].
    + rewrite Z.add_0_r, Hkeep by lia. rewrite rd_insert.
      now rewrite decide_True by reflexivity.
    + replace (i + Z.of_nat (S k)) with (i + 1 + Z.of_nat k) by lia.
      rewrite IH by lia.
      replace (Z.of_nat (S k)) with (Z.of_nat k + 1) by lia.
      now rewrite input_byte_cons by lia.
Qed.

Lemma init_state_follows junk input :
  1 <= num_POS_BITS ->
  buffers_follow input 0 (init_state junk input).
Proof.
  intros HB.
  pose proof (pat_BUFSIZE_pos _ HB) as HP.
  pose proof (win_BUFSIZE_pos num_POS_BITS ltac:(lia)) as HW.
  unfold buffers_follow.
  cbn [buf_cnt gIN win_cnt pat_cnt pattern win_buf init_state].
  destruct (fread_count junk 0 (Z.to_nat PSIZE) input) as [Hc Hl].
  rewrite fread_rest, Hc.
  set (k := Nat.min (Z.to_nat PSIZE) (length input)).
  assert (Hk : (k <= Z.to_nat PSIZE)%nat /\ (k <= length input)%nat)
    by (unfold k; lia).
  split; [lia |]. split; [lia |].
  split; [f_equal; lia |]. split; [lia |].
  split.
  { destruct (Nat.le_gt_cases (Z.to_nat PSIZE) (length input)) as [Hle | Hgt].
    - left. lia.
    - right. apply drop_ge. lia. }
  split; [now rewrite Z.mod_0_l by lia |].
  split; [now rewrite Z.mod_0_l by lia |].
  split; [| split].
  - intros q Hq. rewrite Z.mod_small by lia.
    replace q with (0 + Z.of_nat (Z.to_nat q)) at 1 by lia.
    rewrite fread_cell by (fold k; lia).
    f_equal. lia.
  - intros q Hq. lia.
  - intros x _. apply memset_rd. unfold rd. now rewrite lookup_empty.
Qed.

(** A step moves the buffers [L] bytes on along the input. *)
Lemma encode_step_follows input n (st : state) :
  1 <= num_POS_BITS ->
  buffers_follow input n st -> 0 < buf_cnt st ->
  buffers_follow input (n + len (dpos (encode_step st))) (encode_step st).
Proof.
  intros HB (Hn & Hbc & Hg & Hle & Hfull & Hwc & Hpc & HLA & HWIN & HZ) Hpos.
  pose proof (pat_BUFSIZE_pos _ HB) as HP.
  pose proof (win_BUFSIZE_pos num_POS_BITS ltac:(lia)) as HW.
  pose proof (pat_BUFSIZE_half _ HB) as HWP.
  destruct (encode_step_progress fgk_encode_symbol num_POS_BITS st Hpos)
    as (_ & HL & _ & _).
  destruct (encode_step_fields st) as (Fw & Fp & Fg & Fwc & Fpc & Fb).
  set (L := len (dpos (encode_step st))) in *.
  destruct (get_bytes_count num_POS_BITS (Z.to_nat L) 0 (pat_cnt st)
              (pattern st) (gIN st)) as [Hi _].
  set (gotn := Nat.min (Z.to_nat L) (length (gIN st))) in *.
  rewrite Hi, Z.add_0_l in Fb.
  rewrite get_bytes_rest in Fg. fold gotn in Fg.
  assert (Hglen : length (gIN st)
                  = (length input - Z.to_nat (n + buf_cnt st))%nat)
    by (rewrite Hg at 1; apply length_drop).
  assert (Hgot : 0 <= Z.of_nat gotn <= L) by lia.
  assert (Hgot0 : gIN st = [] -> gotn = 0%nat).
  { intros E. unfold gotn. rewrite E. cbn. lia. }
  assert (Hfull' : 0 < Z.of_nat gotn -> buf_cnt st = PSIZE).
  { intros Hp. destruct Hfull as [? | E]; [assumption |].
    apply Hgot0 in E. lia. }
  unfold buffers_follow.
  rewrite Fw, Fp, Fg, Fwc, Fpc, Fb.
  split; [lia |]. split; [lia |].
  split.
  { rewrite Hg, drop_drop. f_equal. lia. }
  split; [lia |].
  split.
  { destruct (Z.eq_dec (Z.of_nat gotn) L) as [E | E].
    - destruct Hfull as [Hf | Hf]; [left; lia |].
      right. rewrite Hf. apply drop_nil.
    - right. apply drop_ge. lia. }
  split.
  { rewrite land_win_MASK, Hwc by lia. now rewrite Z.add_mod_idemp_l by lia. }
  split.
  { rewrite land_pat_MASK, Hpc by lia. now rewrite Z.add_mod_idemp_l by lia. }
  assert (Hcell : forall s, Z.land (pat_cnt st + (0 + s)) PMASK
                            = (n + s) mod PSIZE).
  { intros s. rewrite land_pat_MASK, Hpc, Z.add_0_l by lia.
    now rewrite Z.add_mod_idemp_l by lia. }
  assert (Hwcell : forall s, Z.land (win_cnt st + s) WMASK
                             = (n + s) mod WSIZE).
  { intros s. rewrite land_win_MASK, Hwc by lia.
    now rewrite Z.add_mod_idemp_l by lia. }
  split; [| split].
  - (* the look-ahead cells *)
    intros q Hq.
    destruct (Z_lt_ge_dec q (n + buf_cnt st)) as [Hold | Hnew].
    + rewrite get_bytes_miss; [apply HLA; lia |].
      fold gotn. intros s Hs. rewrite Hcell.
      replace q with (n + (q - n)) by lia.
      intros Heq. symmetry in Heq. revert Heq. apply mod_add_inj; lia.
    + assert (Hbp : buf_cnt st = PSIZE) by (apply Hfull'; lia).
      set (s := q - n - PSIZE).
      assert (Hs : 0 <= s < Z.of_nat gotn) by (unfold s; lia).
      replace (q mod PSIZE) with (Z.land (pat_cnt st + (0 + s)) PMASK).
      * rewrite get_bytes_hit by (try exact HB; fold gotn; lia).
        rewrite Hg, input_byte_drop by lia. f_equal. unfold s. lia.
      * rewrite Hcell. unfold s.
        replace q with (n + (q - n - PSIZE) + 1 * PSIZE) at 2 by lia.
        now rewrite Z_mod_plus_full.
  - (* the window cells *)
    intros q Hq Hq'.
    destruct (Z_lt_ge_dec q n) as [Hold | Hnew].
    + rewrite copy_loop_miss; [apply HWIN; lia |].
      intros s Hs. rewrite Hwcell.
      replace (q mod WSIZE) with ((q + 0) mod WSIZE) by (f_equal; lia).
      replace (n + s) with (q + (n + s - q)) by lia.
      apply mod_add_inj; lia.
    + set (s := q - n).
      replace (q mod WSIZE) with (Z.land (win_cnt st + s) WMASK)
        by (rewrite Hwcell; f_equal; unfold s; lia).
      rewrite copy_loop_hit by lia.
      replace (pat_cnt st + s) with (pat_cnt st + (0 + s)) by lia.
      rewrite Hcell. rewrite HLA by (unfold s; lia).
      f_equal. unfold s. lia.
  - (* the cells never written *)
    intros x Hx.
    rewrite copy_loop_miss.
    + apply HZ. intros q Hq Hq'.
      destruct (Z_lt_ge_dec q (n + L - WSIZE)) as [Hlow | Hin].
      * replace (q mod WSIZE) with ((q + WSIZE) mod WSIZE)
          by (replace (q + WSIZE) with (q + 1 * WSIZE) by lia;
              apply Z_mod_plus_full).
        apply Hx; lia.
      * apply Hx; lia.
    + intros s Hs. rewrite Hwcell. apply Hx; lia.
Qed.

Lemma follows_consumed input n (st : state) :
  buffers_follow input n st -> consumed input st = n.
Proof.
  intros (Hn & Hbc & Hg & Hle & _). unfold consumed.
  rewrite Hg at 1. rewrite length_drop. lia.
Qed.

Lemma consumed_step input (st : state) :
  0 < buf_cnt st ->
  consumed input (encode_step st)
  = consumed input st + len (dpos (encode_step st)).
Proof.
  intros Hpos. unfold consumed.
  destruct (encode_step_progress fgk_encode_symbol num_POS_BITS st Hpos)
    as (_ & _ & Hg & Hb).
  rewrite Hg, Hb. lia.
Qed.

Lemma compress_loop_invariant (P : state -> Prop) fuel (st st' : state) :
  P st -> (forall s, P s -> 0 < buf_cnt s -> P (encode_step s)) ->
  compress_loop fuel st = Some st' ->
  P st' /\ buf_cnt st' <= 0.
Proof.
  intros H0 Hstep. revert st H0.
  induction fuel as [|f IH]; intros st H0; cbn [compress_loop];
    destruct (buf_cnt st >? 0) eqn:Hb; intros H; try discriminate.
  - injection H as <-. split; [exact H0 | lia].
  - apply (IH (encode_step st)); [apply Hstep; [exact H0 | lia] | exact H].
  - injection H as <-. split; [exact H0 | lia].
Qed.

Lemma follows_step input (st : state) :
  1 <= num_POS_BITS ->
  buffers_follow input (consumed input st) st -> 0 < buf_cnt st ->
  buffers_follow input (consumed input (encode_step st)) (encode_step st).
Proof.
  intros HB H Hpos. rewrite consumed_step by exact Hpos.
  now apply encode_step_follows.
Qed.

Lemma init_follows junk input :
  1 <= num_POS_BITS ->
  buffers_follow input (consumed input (init_state junk input))
                 (init_state junk input).
Proof.
  intros HB. pose proof (init_state_follows junk input HB) as H.
  now rewrite (follows_consumed _ _ _ H).
Qed.

(** At the top of every pass of a run the buffers follow the input. *)
Lemma run_follows junk input fuel :
  1 <= num_POS_BITS ->
  Forall (fun s => buffers_follow input (consumed input s) s
                   /\ 0 < buf_cnt s)
         (compress_trace fuel (init_state junk input)).
Proof.
  intros HB.
  pose proof (compress_trace_invariant fgk_encode_symbol num_POS_BITS
                (fun s => buffers_follow input (consumed input s) s) fuel
                (init_state junk input) (init_follows junk input HB)
                (fun s Hs Hp => follows_step input s HB Hs Hp)) as Hall.
  assert (Hpos : forall f (st : state),
            Forall (fun s => 0 < buf_cnt s) (compress_trace f st)).
  { induction f as [|f IH]; intros st; cbn [compress_trace];
      destruct (buf_cnt st >? 0) eqn:Hb; constructor; [lia | apply IH]. }
  specialize (Hpos fuel (init_state junk input)).
  rewrite Forall_forall in *. intros s Hs.
  split; [apply Hall | apply Hpos]; exact Hs.
Qed.

(** ** Properties of [search] *)

(** The match [search] returns is a match: the [len] look-ahead bytes from
    [pat_cnt] on equal the window bytes from [pos] on, both taken around
    their buffers; its length is between 0 and [buf_cnt]. *)
Theorem search_returns_a_match (st : state) :
  1 <= num_POS_BITS ->
  (forall t, 0 <= t < len (search st) ->
     rd (pattern st) (Z.land (pat_cnt st + t) PMASK)
     = rd (win_buf st) (Z.land (pos (search st) + t) WMASK))
  /\ 0 <= len (search st)
  /\ (0 < buf_cnt st -> len (search st) <= buf_cnt st).
Proof.
  intros HB. split; [| apply search_len].
  assert (H : matches_at st (pos (search st)) (len (search st))).
  { unfold search, search_log.
    destruct (buf_cnt st >? 1) eqn:Hb.
    - apply walk_sound; [exact HB | cbn [len]; lia |].
      intros t Ht. cbn [len] in Ht. lia.
    - intros t Ht. cbn [fst len] in Ht. lia. }
  exact H.
Qed.

(** No chain node [search] looked at matches the look-ahead on more bytes
    than the match it returns: for a length [q] above the returned one (and
    within [buf_cnt]), the first [q] look-ahead bytes are not all found at
    the node. *)
Theorem search_longest_of_visited (st : state) v q :
  1 <= num_POS_BITS ->
  In v (snd (search_log st)) ->
  len (search st) < q <= buf_cnt st ->
  exists t, 0 <= t < q
            /\ rd (pattern st) (Z.land (pat_cnt st + t) PMASK)
               <> rd (win_buf st) (Z.land (v_node v + t) WMASK).
Proof.
  intros HB Hin Hq.
  assert (Hno : ~ matches_at st (v_node v) q).
  { revert Hin Hq. unfold search, search_log.
    destruct (buf_cnt st >? 1) eqn:Hb; [| intros []].
    intros Hin Hq. eapply walk_longest; eauto. cbn [len]. lia. }
  (* a bounded search for the first differing byte *)
  assert (Hdec : forall k : nat,
            (forall t, 0 <= t < Z.of_nat k ->
               lookahead_byte st t = window_byte st (v_node v) t)
            \/ exists t, 0 <= t < Z.of_nat k
                         /\ lookahead_byte st t <> window_byte st (v_node v) t).
  { induction k as [|k [IH | (t & Ht & Hne)]].
    - left. intros t Ht. lia.
    - destruct (Z.eq_dec (lookahead_byte st (Z.of_nat k))
                         (window_byte st (v_node v) (Z.of_nat k))) as [E | E].
      + left. intros t Ht.
        destruct (Z.eq_dec t (Z.of_nat k)) as [-> | Hne];
          [exact E | apply IH; lia].
      + right. exists (Z.of_nat k). split; [lia | exact E].
    - right. exists t. split; [lia | exact Hne]. }
  destruct (Hdec (Z.to_nat q)) as [Hall | (t & Ht & Hne)].
  - exfalso. apply Hno. intros t Ht. apply Hall. lia.
  - exists t. split; [lia | exact Hne].
Qed.

(** ** Properties of the loop of [main] with [put_codes] *)

(** At the top of every pass of a run the look-ahead buffer holds the next
    [buf_cnt] bytes of the input, in order from [pat_cnt] on around the
    buffer: the byte [t] places ahead is input byte [n + t], where [n] is
    the number of input bytes the passes before have slid over. *)
Theorem lookahead_holds_next_input junk input fuel :
  1 <= num_POS_BITS ->
  Forall (fun s =>
            forall t, 0 <= t < buf_cnt s ->
              rd (pattern s) (Z.land (pat_cnt s + t) PMASK)
              = input_byte input (consumed input s + t))
         (compress_trace fuel (init_state junk input)).
Proof.
  intros HB. pose proof (pat_BUFSIZE_pos _ HB) as HP.
  pose proof (run_follows junk input fuel HB) as Hrun.
  rewrite Forall_forall in *. intros s Hs.
  destruct (Hrun s Hs) as ((_ & _ & _ & _ & _ & _ & Hpc & HLA & _) & _).
  intros t Ht. rewrite <- HLA by lia.
  rewrite land_pat_MASK, Hpc by exact HB.
  now rewrite Z.add_mod_idemp_l by lia.
Qed.

(** At the top of every pass of a run the window holds the input bytes
    slid over so far, the latest just behind [win_cnt]: for [t] in 1..W the
    cell [t] places behind [win_cnt] (around the buffer) holds input byte
    [n - t] when [t <= n], and the 0 of the initial [memset] otherwise. *)
Theorem window_holds_last_input junk input fuel :
  1 <= num_POS_BITS ->
  Forall (fun s =>
            forall t, 1 <= t <= WSIZE ->
              rd (win_buf s) (Z.land (win_cnt s - t) WMASK)
              = if t <=? consumed input s
                then input_byte input (consumed input s - t)
                else 0)
         (compress_trace fuel (init_state junk input)).
Proof.
  intros HB.
  pose proof (win_BUFSIZE_pos num_POS_BITS ltac:(lia)) as HW.
  pose proof (run_follows junk input fuel HB) as Hrun.
  rewrite Forall_forall in *. intros s Hs.
  destruct (Hrun s Hs) as ((Hn & _ & _ & _ & _ & Hwc & _ & _ & HWIN & HZ) & _).
  set (n := consumed input s) in *.
  intros t Ht.
  rewrite land_win_MASK, Hwc, Zminus_mod_idemp_l by lia.
  destruct (t <=? n) eqn:E.
  - apply HWIN; lia.
  - apply HZ. intros q Hq Hq'.
    rewrite (Z.mod_small q) by lia.
    replace (n - t) with (n - t + WSIZE + (-1) * WSIZE) by lia.
    rewrite Z_mod_plus_full, Z.mod_small by lia. lia.
Qed.

(** The look-ahead is kept full while input is left: at the top of every
    pass [0 < buf_cnt <= P], and [buf_cnt = P] unless the whole input has
    been read; the unread input is what follows the look-ahead.  When the
    loop ends, [buf_cnt = 0], nothing is unread, and the passes have slid
    over the whole input. *)
Theorem lookahead_full_until_input_ends junk input fuel :
  1 <= num_POS_BITS ->
  Forall (fun s =>
            0 < buf_cnt s <= PSIZE
            /\ (buf_cnt s = PSIZE \/ gIN s = [])
            /\ gIN s = drop (Z.to_nat (consumed input s + buf_cnt s)) input)
         (compress_trace fuel (init_state junk input))
  /\ (forall st',
        compress_loop fuel (init_state junk input) = Some st' ->
        buf_cnt st' = 0 /\ gIN st' = []
        /\ consumed input st' = Z.of_nat (length input)).
Proof.
  intros HB. pose proof (pat_BUFSIZE_pos _ HB) as HP. split.
  - pose proof (run_follows junk input fuel HB) as Hrun.
    rewrite Forall_forall in *. intros s Hs.
    destruct (Hrun s Hs) as ((_ & Hbc & Hg & _ & Hfull & _) & Hpos).
    split; [lia |]. split; [exact Hfull | exact Hg].
  - intros st' Hend.
    destruct (compress_loop_invariant
                (fun s => buffers_follow input (consumed input s) s) fuel
                (init_state junk input) st' (init_follows junk input HB)
                (fun s Hs Hp => follows_step input s HB Hs Hp) Hend)
      as ((_ & Hbc & _ & _ & Hfull & _) & Hle).
    assert (Hb0 : buf_cnt st' = 0) by lia.
    assert (Hg0 : gIN st' = []) by (destruct Hfull; [lia | assumption]).
    split; [exact Hb0 |]. split; [exact Hg0 |].
    unfold consumed. rewrite Hb0, Hg0. cbn [length]. lia.
Qed.

(** Every pass of a run codes the next input bytes: with [n] input bytes
    slid over before the pass, a match of [MIN_LEN] bytes or more returned
    by [search] has at most [buf_cnt] bytes and names window bytes equal to
    the input bytes [n .. n+len-1]; otherwise the literal coded is input
    byte [n]; and the pass slides over exactly those bytes. *)
Theorem step_codes_next_input junk input fuel :
  1 <= num_POS_BITS ->
  Forall (fun s =>
            let d := search s in
            let n := consumed input s in
            (MIN_LEN <= len d ->
               len d <= buf_cnt s
               /\ forall t, 0 <= t < len d ->
                    rd (win_buf s) (Z.land (pos d + t) WMASK)
                    = input_byte input (n + t))
            /\ (len d < MIN_LEN ->
                  rd (pattern s) (pat_cnt s) = input_byte input n)
            /\ consumed input (encode_step s)
               = n + (if len d >=? MIN_LEN then len d else 1))
         (compress_trace fuel (init_state junk input)).
Proof.
  intros HB. pose proof (pat_BUFSIZE_pos _ HB) as HP.
  pose proof (run_follows junk input fuel HB) as Hrun.
  rewrite Forall_forall in *. intros s Hs. cbv zeta.
  destruct (Hrun s Hs) as ((Hn & Hbc & _ & _ & _ & _ & Hpc & HLA & _) & Hpos).
  destruct (search_len num_POS_BITS s) as [Hl0 Hl1]. specialize (Hl1 Hpos).
  assert (Hla : forall t, 0 <= t < buf_cnt s ->
            lookahead_byte s t = input_byte input (consumed input s + t)).
  { intros t Ht. rewrite <- HLA by lia. unfold lookahead_byte.
    rewrite land_pat_MASK, Hpc by exact HB.
    now rewrite Z.add_mod_idemp_l by lia. }
  split; [| split].
  - intros HL. split; [exact Hl1 |]. intros t Ht.
    rewrite <- Hla by lia.
    assert (Hm : matches_at s (pos (search s)) (len (search s))).
    { unfold search, search_log.
      destruct (buf_cnt s >? 1) eqn:Hb.
      - apply walk_sound; [exact HB | cbn [len]; lia |].
        intros t' Ht'. cbn [len] in Ht'. lia.
      - intros t' Ht'. cbn [fst len] in Ht'. lia. }
    symmetry. apply Hm. exact Ht.
  - intros _. rewrite <- (Z.add_0_r (consumed input s)), <- HLA by lia.
    rewrite Z.add_0_r, Hpc. reflexivity.
  - rewrite consumed_step by exact Hpos.
    destruct (encode_step_progress fgk_encode_symbol num_POS_BITS s Hpos)
      as (-> & _). reflexivity.
Qed.

(** The empty input: the loop is not entered, whatever the fuel, and no bit
    is written. *)
Lemma empty_input_run junk fuel :
  compress_loop fuel (init_state junk [])
  = Some (init_state junk [])
  /\ pOUT (init_state junk []) = []
  /\ compress_trace fuel (init_state junk []) = [].
Proof.
  assert (Hb : buf_cnt (init_state junk []) = 0).
  { cbn [buf_cnt init_state].
    destruct (fread_count junk 0 (Z.to_nat PSIZE) []) as [-> _].
    cbn [length]. lia. }
  split; [| split].
  - destruct fuel; cbn [compress_loop]; now rewrite Hb.
  - reflexivity.
  - destruct fuel; cbn [compress_trace]; now rewrite Hb.
Qed.

End RunFacts.

(** ** More of [main] *)

Section MainRunFacts.

Context {fgk_tree : Type}.
Variable fgk_init_first_node : fgk_tree.
Variable fgk_encode_symbol : fgk_tree -> Z -> list bool * fgk_tree.


(** On a well formed command line, with both files open and the three
    allocations done, [main] runs the loop to its end and returns 0: it
    reports the bits of the final state, in which the look-ahead is empty,
    no input is unread and the passes have slid over the whole input. *)
Theorem main_compresses_whole_input (e : environment) bits i o input :
  parse_bits (argv e) = Some bits ->
  parse_files (argv e) = Some (i, o) ->
  fopen_rb e (nth i (argv e) EmptyString) = Some input ->
  fopen_wb e (nth o (argv e) EmptyString) = true ->
  malloc_win_buf e = true -> malloc_pattern e = true ->
  alloc_lzhash_ok e = true ->
  exists st',
    compress_loop fgk_encode_symbol bits (length input)
      (init_state fgk_init_first_node bits (pattern_junk e) input) = Some st'
    /\ main fgk_init_first_node fgk_encode_symbol e
       = mkOutcome 0 (Complete (Some (pOUT st')))
    /\ buf_cnt st' = 0 /\ gIN st' = []
    /\ consumed input st' = Z.of_nat (length input).
Proof.
  intros Hb Hf Hi Ho Hw Hp Hh.
  pose proof (parse_bits_range _ _ Hb) as Hr.
  destruct (init_state_measure fgk_init_first_node bits (pattern_junk e) input)
    as [H0 Hm].
  destruct (compress_loop_ends fgk_encode_symbol bits (length input) _ H0 Hm)
    as (st' & Hrun & _).
  exists st'. split; [exact Hrun |].
  split.
  - unfold main. rewrite Hb, Hf, Hi, Ho, Hw, Hp, Hh. cbn [negb].
    unfold compress. now rewrite Hrun.
  - apply (proj2 (lookahead_full_until_input_ends fgk_init_first_node
                    fgk_encode_symbol bits (pattern_junk e) input
                    (length input) ltac:(lia))).
    exact Hrun.
Qed.

(** On an empty input file [main] writes no bit and returns 0. *)
Theorem main_on_empty_input (e : environment) bits i o :
  parse_bits (argv e) = Some bits ->
  parse_files (argv e) = Some (i, o) ->
  fopen_rb e (nth i (argv e) EmptyString) = Some [] ->
  fopen_wb e (nth o (argv e) EmptyString) = true ->
  malloc_win_buf e = true -> malloc_pattern e = true ->
  alloc_lzhash_ok e = true ->
  main fgk_init_first_node fgk_encode_symbol e
  = mkOutcome 0 (Complete (Some [])).
Proof.
  intros Hb Hf Hi Ho Hw Hp Hh.
  unfold main. rewrite Hb, Hf, Hi, Ho, Hw, Hp, Hh. cbn [negb].
  unfold compress.
  destruct (empty_input_run fgk_init_first_node fgk_encode_symbol bits
              (pattern_junk e) (length (@nil Byte.byte))) as (-> & Ho' & _).
  cbn [fmap option_fmap option_map]. now rewrite Ho'.
Qed.

End MainRunFacts.

(** ** More sample runs *)

(** The match found for eleven zero bytes, with 12 position bits. *)
Lemma search_returns_a_match_witness :
  let st := sample_state eleven_zero_bytes in
  (1 <= 12 /\ search 12 st = mkDpos 4095 11)
  /\ (forall t, 0 <= t < len (search 12 st) ->
        rd (pattern st) (Z.land (pat_cnt st + t) (pat_MASK 12))
        = rd (win_buf st) (Z.land (pos (search 12 st) + t) (win_MASK 12)))
  /\ 0 <= len (search 12 st)
  /\ (0 < buf_cnt st -> len (search 12 st) <= buf_cnt st).
Proof.
  cbv zeta.
  assert (H : 1 <= 12) by lia.
  split; [split; [exact H | vm_compute; reflexivity] |].
  exact (search_returns_a_match 12 (sample_state eleven_zero_bytes) H).
Defined.

(** Four zero bytes and an A against the window of zeros: the head of the
    chain, position 4095, matches 4 bytes and not 5. *)
Lemma search_longest_of_visited_witness :
  let st := sample_state zeros_then_A in
  let v := mkVisit 4095 (Some 4) in
  (1 <= 12
   /\ In v (snd (search_log 12 st))
   /\ len (search 12 st) < 5 <= buf_cnt st)
  /\ exists t, 0 <= t < 5
               /\ rd (pattern st) (Z.land (pat_cnt st + t) (pat_MASK 12))
                  <> rd (win_buf st) (Z.land (v_node v + t) (win_MASK 12)).
Proof.
  cbv zeta.
  assert (H : 1 <= 12) by lia.
  assert (Hin : In (mkVisit 4095 (Some 4))
                   (snd (search_log 12 (sample_state zeros_then_A))))
    by (vm_compute; left; reflexivity).
  assert (Hv : len (search 12 (sample_state zeros_then_A)) = 4
               /\ buf_cnt (sample_state zeros_then_A) = 5)
    by (vm_compute; split; reflexivity).
  assert (Hq : len (search 12 (sample_state zeros_then_A)) < 5
               <= buf_cnt (sample_state zeros_then_A))
    by (destruct Hv as [-> ->]; lia).
  split; [split; [exact H | split; [exact Hin | exact Hq]] |].
  exact (search_longest_of_visited 12 (sample_state zeros_then_A)
           (mkVisit 4095 (Some 4)) 5 H Hin Hq).
Defined.

(** The look-ahead along the run on the sample text, with 12 position
    bits. *)
Lemma lookahead_holds_next_input_witness :
  1 <= 12
  /\ Forall (fun s : @state unit =>
               forall t, 0 <= t < buf_cnt s ->
                 rd (pattern s) (Z.land (pat_cnt s + t) (pat_MASK 12))
                 = input_byte sample_text (consumed sample_text s + t))
            (compress_trace fixed8 12 17 (init_state tt 12 ∅ sample_text)).
Proof.
  assert (H : 1 <= 12) by lia.
  split; [exact H |].
  exact (lookahead_holds_next_input tt fixed8 12 ∅ sample_text 17 H).
Defined.

(** The window along the run on the sample text, with 12 position bits. *)
Lemma window_holds_last_input_witness :
  1 <= 12
  /\ Forall (fun s : @state unit =>
               forall t, 1 <= t <= win_BUFSIZE 12 ->
                 rd (win_buf s) (Z.land (win_cnt s - t) (win_MASK 12))
                 = if t <=? consumed sample_text s
                   then input_byte sample_text (consumed sample_text s - t)
                   else 0)
            (compress_trace fixed8 12 17 (init_state tt 12 ∅ sample_text)).
Proof.
  assert (H : 1 <= 12) by lia.
  split; [exact H |].
  exact (window_holds_last_input tt fixed8 12 ∅ sample_text 17 H).
Defined.

(** The look-ahead counter along the run on the sample text, and the end of
    that run. *)
Lemma lookahead_full_until_input_ends_witness :
  1 <= 12
  /\ Forall (fun s : @state unit =>
               0 < buf_cnt s <= pat_BUFSIZE 12
               /\ (buf_cnt s = pat_BUFSIZE 12 \/ gIN s = [])
               /\ gIN s = drop (Z.to_nat (consumed sample_text s + buf_cnt s))
                               sample_text)
            (compress_trace fixed8 12 17 (init_state tt 12 ∅ sample_text))
  /\ (forall st',
        compress_loop fixed8 12 17 (init_state tt 12 ∅ sample_text) = Some st' ->
        buf_cnt st' = 0 /\ gIN st' = []
        /\ consumed sample_text st' = Z.of_nat (length sample_text)).
Proof.
  assert (H : 1 <= 12) by lia.
  split; [exact H |].
  exact (lookahead_full_until_input_ends tt fixed8 12 ∅ sample_text 17 H).
Defined.

(** The passes of the run on the sample text, with 12 position bits. *)
Lemma step_codes_next_input_witness :
  1 <= 12
  /\ Forall (fun s : @state unit =>
               let d := search 12 s in
               let n := consumed sample_text s in
               (MIN_LEN <= len d ->
                  len d <= buf_cnt s
                  /\ forall t, 0 <= t < len d ->
                       rd (win_buf s) (Z.land (pos d + t) (win_MASK 12))
                       = input_byte sample_text (n + t))
               /\ (len d < MIN_LEN ->
                     rd (pattern s) (pat_cnt s) = input_byte sample_text n)
               /\ consumed sample_text (encode_step fixed8 12 s)
                  = n + (if len d >=? MIN_LEN then len d else 1))
            (compress_trace fixed8 12 17 (init_state tt 12 ∅ sample_text)).
Proof.
  assert (H : 1 <= 12) by lia.
  split; [exact H |].
  exact (step_codes_next_input tt fixed8 12 ∅ sample_text 17 H).
Defined.


(** The program run on the sample text with the option [-12]. *)
Lemma main_compresses_whole_input_witness :
  let e := sample_env [prog; "-12"%string; infile; outfile] (Some sample_text)
                      true true true true in
  (parse_bits (argv e) = Some 12
   /\ parse_files (argv e) = Some (2%nat, 3%nat)
   /\ fopen_rb e (nth 2 (argv e) EmptyString) = Some sample_text
   /\ fopen_wb e (nth 3 (argv e) EmptyString) = true)
  /\ exists st',
       compress_loop fixed8 12 (length sample_text)
         (init_state tt 12 (pattern_junk e) sample_text) = Some st'
       /\ main tt fixed8 e = mkOutcome 0 (Complete (Some (pOUT st')))
       /\ buf_cnt st' = 0 /\ gIN st' = []
       /\ consumed sample_text st' = Z.of_nat (length sample_text).
Proof.
  cbv zeta.
  set (e := sample_env [prog; "-12"%string; infile; outfile] (Some sample_text)
                       true true true true).
  assert (H1 : parse_bits (argv e) = Some 12) by (vm_compute; reflexivity).
  assert (H2 : parse_files (argv e) = Some (2%nat, 3%nat)) by reflexivity.
  assert (H3 : fopen_rb e (nth 2 (argv e) EmptyString) = Some sample_text)
    by reflexivity.
  assert (H4 : fopen_wb e (nth 3 (argv e) EmptyString) = true) by reflexivity.
  split; [repeat split; assumption |].
  exact (main_compresses_whole_input tt fixed8 e 12 2%nat 3%nat sample_text
           H1 H2 H3 H4 eq_refl eq_refl eq_refl).
Defined.

(** The program run on an empty file. *)
Lemma main_on_empty_input_witness :
  let e := sample_env [prog; infile; outfile] (Some []) true true true true in
  (parse_bits (argv e) = Some 17
   /\ parse_files (argv e) = Some (1%nat, 2%nat)
   /\ fopen_rb e (nth 1 (argv e) EmptyString) = Some [])
  /\ main tt fixed8 e = mkOutcome 0 (Complete (Some [])).
Proof.
  cbv zeta.
  set (e := sample_env [prog; infile; outfile] (Some []) true true true true).
  assert (H1 : parse_bits (argv e) = Some 17) by reflexivity.
  assert (H2 : parse_files (argv e) = Some (1%nat, 2%nat)) by reflexivity.
  assert (H3 : fopen_rb e (nth 1 (argv e) EmptyString) = Some []) by reflexivity.
  split; [repeat split; assumption |].
  exact (main_on_empty_input tt fixed8 e 17 1%nat 2%nat
           H1 H2 H3 eq_refl eq_refl eq_refl eq_refl).
Defined.
